(** * mask-phone: a shallow embedding of [src/index.ts] and [src/types.ts]

    The library masks phone-number strings for display.  This file
    embeds its functions ([normalizePhone], [stripFormatting],
    [normalizeOptions], [isCharVisible], [isFormattingChar],
    [maskWithFormat], [maskWithoutFormat], [maskPhone],
    [isValidPhoneInput]) and proves the properties the specification
    states about them, then further properties read off the code.

    Modelling choices.
    - A JavaScript string is a sequence of UTF-16 code units; [split("")],
      [length] and the (non-unicode) regular expressions of the source all
      work on code units.  A code unit is an [N], a string a [list N].
    - The numbers the source computes with (indices, lengths,
      [showFirst], [showLast], range bounds) are modelled as mathematical
      integers [Z]; non-integral and non-finite counts are outside the
      model.
    - An optional field ([T | undefined]) is an [option]. *)

From Stdlib Require Import ZArith NArith List Bool Lia.
From Stdlib Require Import Strings.String Strings.Ascii Numbers.DecimalString.
From stdpp Require Import base list.

Local Open Scope Z_scope.

(** ** Strings as sequences of UTF-16 code units *)

Definition char := N.
Definition jsstring := list char.

(** An ASCII literal as a JavaScript string. *)
Definition js (s : string) : jsstring :=
  List.map N_of_ascii (list_ascii_of_string s).

(** [arr.length] *)
Definition arrayLength {A} (l : list A) : Z := Z.of_nat (length l).

(** [s.length] *)
Definition len (s : jsstring) : Z := arrayLength s.

(** [arr.join("")] *)
Definition join (parts : list jsstring) : jsstring := List.concat parts.

Definition PLUS : char := 43%N.

(** [\d]: the ten decimal digits, U+0030 .. U+0039. *)
Definition isDigit (c : char) : bool := ((48 <=? c) && (c <=? 57))%N.

(** [\s], which is also the set removed by [String.prototype.trim]:
    WhiteSpace and LineTerminator of ECMA-262. *)
Definition isWhiteSpace (c : char) : bool :=
  (((9 <=? c) && (c <=? 13))          (* TAB, LF, VT, FF, CR *)
   || (c =? 32)                       (* SPACE *)
   || (c =? 160)                      (* NO-BREAK SPACE *)
   || (c =? 5760)                     (* U+1680 *)
   || ((8192 <=? c) && (c <=? 8202))  (* U+2000 .. U+200A *)
   || (c =? 8232) || (c =? 8233)      (* U+2028, U+2029 *)
   || (c =? 8239)                     (* U+202F *)
   || (c =? 8287)                     (* U+205F *)
   || (c =? 12288)                    (* U+3000 *)
   || (c =? 65279))%N.                (* U+FEFF *)

Fixpoint trimStart (s : jsstring) : jsstring :=
  match s with
  | [] => []
  | c :: rest => if isWhiteSpace c then trimStart rest else s
  end.

Definition trimEnd (s : jsstring) : jsstring := rev (trimStart (rev s)).

(** [s.trim()] *)
Definition trim (s : jsstring) : jsstring := trimEnd (trimStart s).

(** ** Input values *)

(** The values [maskPhone] is called with: the declared [string | number]
    and the ones the tests pass with [as any].  The code looks at a value
    only through [== null], [typeof], ["phone" in], [.phone] and
    [String()], and the values are modelled by what these show.
    - A number is given by [repr], the string [String()] returns for it
      (Number::toString: ["1234567890"], ["1e+21"], ["NaN"], ...), so that
      every number is covered and nothing is said about how a double is
      printed.
    - A bigint is given by its integer value; BigInt::toString prints its
      exact decimal expansion.
    - An object is an ordinary object that converts to a string in the
      default way (it has no [toString], [valueOf], [Symbol.toPrimitive]
      or [Symbol.toStringTag] of its own and inherits from
      [Object.prototype]), so that [String()] returns ["[object Object]"]
      and does not throw.  Of its properties the code reads only [phone]:
      [Some v] when ["phone" in obj] holds, with [v] the value of
      [obj.phone], and [None] when it does not.  Values on which
      [String()] throws are outside the model. *)
#[warnings="-register-all"]
Inductive JsValue :=
| JsNull
| JsUndefined
| JsString (s : jsstring)
| JsNumber (repr : jsstring)
| JsBoolean (b : bool)
| JsBigInt (z : Z)
| JsObject (phone : option JsValue).

(** The decimal expansion of an integer, with a leading [-] when it is
    negative: BigInt::toString. *)
Definition decimal (z : Z) : jsstring := js (NilZero.string_of_int (Z.to_int z)).

(** [String(v)] *)
Definition toString (v : JsValue) : jsstring :=
  match v with
  | JsNull => js "null"
  | JsUndefined => js "undefined"
  | JsString s => s
  | JsNumber repr => repr
  | JsBoolean b => if b then js "true" else js "false"
  | JsBigInt z => decimal z
  | JsObject _ => js "[object Object]"
  end.

(** ** Options ([src/types.ts]) *)

Definition Range := (Z * Z)%type.
Definition CustomMask := jsstring -> Z -> jsstring -> jsstring.

Module MaskOptions.
Record t := mk {
  maskChar : option jsstring;
  showFirst : option Z;
  showLast : option Z;
  showStart : option Z;
  showEnd : option Z;
  visibleRanges : option (list Range);
  preserveFormat : option bool;
  customMask : option CustomMask
}.

(** The object literal [{}]. *)
Definition empty : t := mk None None None None None None None None.
End MaskOptions.

Module NormalizedOptions.
Record t := mk {
  maskChar : jsstring;
  showFirst : Z;
  showLast : Z;
  visibleRanges : option (list Range);
  preserveFormat : bool;
  customMask : option CustomMask
}.
End NormalizedOptions.

Module DefaultOptions.
Record t := mk {
  maskChar : jsstring;
  showLast : Z;
  preserveFormat : bool
}.
End DefaultOptions.

Definition DEFAULT_OPTIONS : DefaultOptions.t :=
  DefaultOptions.mk (js "*") 4 false.

(** [a ?? b] *)
Definition nullish {A} (a : option A) (b : A) : A :=
  match a with
  | Some x => x
  | None => b
  end.

(** [a ?? b] where [b] may itself be undefined. *)
Definition nullishOpt {A} (a b : option A) : option A :=
  match a with
  | Some x => Some x
  | None => b
  end.

(** ** The functions of [src/index.ts] *)

Definition normalizePhone (phone : JsValue) : jsstring :=
  match phone with
  | JsNull | JsUndefined => []
  | _ =>
      let phone' :=
        match phone with
        | JsObject (Some v) => v
        | JsObject None => phone
        | _ => phone
        end in
      trim (toString phone')
  end.

(** [phone.replace(/[^\d+]/g, "")] *)
Definition stripFormatting (phone : jsstring) : jsstring :=
  List.filter (fun c => isDigit c || (c =? PLUS)%N) phone.

Definition normalizeOptions (options : option MaskOptions.t) : NormalizedOptions.t :=
  match options with
  | None =>
      NormalizedOptions.mk
        (DefaultOptions.maskChar DEFAULT_OPTIONS)
        0
        (DefaultOptions.showLast DEFAULT_OPTIONS)
        None
        (DefaultOptions.preserveFormat DEFAULT_OPTIONS)
        None
  | Some options =>
      let showFirst :=
        nullish (nullishOpt (MaskOptions.showFirst options)
                            (MaskOptions.showStart options)) 0 in
      let showLast :=
        nullish (nullishOpt (MaskOptions.showLast options)
                            (MaskOptions.showEnd options))
                (DefaultOptions.showLast DEFAULT_OPTIONS) in
      NormalizedOptions.mk
        (nullish (MaskOptions.maskChar options) (DefaultOptions.maskChar DEFAULT_OPTIONS))
        showFirst
        showLast
        (MaskOptions.visibleRanges options)
        (nullish (MaskOptions.preserveFormat options)
                 (DefaultOptions.preserveFormat DEFAULT_OPTIONS))
        (MaskOptions.customMask options)
  end.

(** [([start, end]) => index >= start && index <= end] *)
Definition inRange (index : Z) (r : Range) : bool :=
  let '(start, end_) := r in (start <=? index) && (index <=? end_).

Definition isCharVisible (index length : Z) (options : NormalizedOptions.t) : bool :=
  let byCounts :=
    if (0 <? NormalizedOptions.showFirst options)
       && (index <? NormalizedOptions.showFirst options)
    then true
    else if (0 <? NormalizedOptions.showLast options)
            && (length - NormalizedOptions.showLast options <=? index)
    then true
    else false in
  match NormalizedOptions.visibleRanges options with
  | Some ranges =>
      if 0 <? arrayLength ranges
      then existsb (inRange index) ranges
      else byCounts
  | None => byCounts
  end.

(** [/[\s\-().\+]/.test(char)] on a one-character string. *)
Definition isFormattingChar (c : char) : bool :=
  isWhiteSpace c
  || (c =? 45)%N    (* - *)
  || (c =? 40)%N    (* ( *)
  || (c =? 41)%N    (* ) *)
  || (c =? 46)%N    (* . *)
  || (c =? PLUS)%N.

(** [phone.replace(/\D/g, "")] *)
Definition digitsOf (phone : jsstring) : jsstring := List.filter isDigit phone.

(** The [map] callback of [maskWithFormat], run over the characters that
    are left.  The callback closes over the mutable [digitIndex]; here the
    counter is threaded through the calls, together with [charIndex]. *)
Fixpoint maskWithFormat_map (phone : jsstring) (totalDigits : Z)
    (options : NormalizedOptions.t) (charIndex digitIndex : Z)
    (chars : list char) : list jsstring :=
  match chars with
  | [] => []
  | c :: rest =>
      match NormalizedOptions.customMask options with
      | Some customMask =>
          customMask [c] charIndex phone
            :: maskWithFormat_map phone totalDigits options (charIndex + 1) digitIndex rest
      | None =>
          if isFormattingChar c
          then [c] :: maskWithFormat_map phone totalDigits options (charIndex + 1) digitIndex rest
          else
            let digitIndex := digitIndex + 1 in
            (if isCharVisible digitIndex totalDigits options
             then [c]
             else NormalizedOptions.maskChar options)
              :: maskWithFormat_map phone totalDigits options (charIndex + 1) digitIndex rest
      end
  end.

Definition maskWithFormat (phone : jsstring) (options : NormalizedOptions.t) : jsstring :=
  let digitIndex := -1 in
  let digits := digitsOf phone in
  let totalDigits := len digits in
  join (maskWithFormat_map phone totalDigits options 0 digitIndex phone).

(** The [map] callback of [maskWithoutFormat]; it has no state, so the
    array of results is an indexed map over [stripped]. *)
Definition maskWithoutFormat_map (stripped : jsstring) (options : NormalizedOptions.t)
    : list jsstring :=
  let length := len stripped in
  imap (fun index c =>
          match NormalizedOptions.customMask options with
          | Some customMask => customMask [c] (Z.of_nat index) stripped
          | None =>
              if (c =? PLUS)%N then [c]
              else if isCharVisible (Z.of_nat index) length options then [c]
              else NormalizedOptions.maskChar options
          end) stripped.

Definition maskWithoutFormat (phone : jsstring) (options : NormalizedOptions.t) : jsstring :=
  let stripped := stripFormatting phone in
  join (maskWithoutFormat_map stripped options).

(** Truthiness of an optional function or array: both are truthy whenever
    they are present (an empty array included). *)
Definition truthy {A} (o : option A) : bool :=
  match o with
  | Some _ => true
  | None => false
  end.

(** [options?.field] *)
Definition optChain {A} (options : option MaskOptions.t)
    (field : MaskOptions.t -> option A) : option A :=
  match options with
  | Some o => field o
  | None => None
  end.

(** [!phoneStr] *)
Definition isEmptyString (s : jsstring) : bool :=
  match s with
  | [] => true
  | _ => false
  end.

Definition maskPhone (phone : JsValue) (options : option MaskOptions.t) : jsstring :=
  let phoneStr := normalizePhone phone in
  if isEmptyString phoneStr then []
  else
    let normalizedOpts := normalizeOptions options in
    let stripped := stripFormatting phoneStr in
    let totalVisible :=
      NormalizedOptions.showFirst normalizedOpts
      + NormalizedOptions.showLast normalizedOpts in
    if negb (truthy (optChain options MaskOptions.customMask))
       && negb (truthy (optChain options MaskOptions.visibleRanges))
       && (len stripped <=? totalVisible)
    then phoneStr
    else if NormalizedOptions.preserveFormat normalizedOpts
         then maskWithFormat phoneStr normalizedOpts
         else maskWithoutFormat phoneStr normalizedOpts.

(** ** Auxiliary definitions used in the statements *)

(** The ['+'] characters of a string. *)
Definition plusesOf (s : jsstring) : jsstring :=
  List.filter (fun c => (c =? PLUS)%N) s.

(** The number of characters of [s] that [isFormattingChar] rejects: the
    value by which [maskWithFormat] has advanced its counter after [s]. *)
Definition nonFormattingCount (s : jsstring) : Z :=
  arrayLength (List.filter (fun c => negb (isFormattingChar c)) s).

(** The array [maskWithFormat] joins. *)
Definition maskWithFormat_pieces (phone : jsstring) (options : NormalizedOptions.t)
    : list jsstring :=
  maskWithFormat_map phone (len (digitsOf phone)) options 0 (-1) phone.

(** What a [customMask] callback produces on the string it is shown. *)
Definition customOutput (f : CustomMask) (shown : jsstring) : jsstring :=
  join (imap (fun index c => f [c] (Z.of_nat index) shown) shown).

(** The short-input test of [maskPhone], on the caller's options. *)
Definition bypassTaken (phoneStr : jsstring) (options : option MaskOptions.t) : bool :=
  negb (truthy (optChain options MaskOptions.customMask))
  && negb (truthy (optChain options MaskOptions.visibleRanges))
  && (len (stripFormatting phoneStr)
      <=? NormalizedOptions.showFirst (normalizeOptions options)
          + NormalizedOptions.showLast (normalizeOptions options)).

Definition setShowFirst (v : Z) (o : NormalizedOptions.t) : NormalizedOptions.t :=
  NormalizedOptions.mk
    (NormalizedOptions.maskChar o) v (NormalizedOptions.showLast o)
    (NormalizedOptions.visibleRanges o) (NormalizedOptions.preserveFormat o)
    (NormalizedOptions.customMask o).

Definition setShowLast (v : Z) (o : NormalizedOptions.t) : NormalizedOptions.t :=
  NormalizedOptions.mk
    (NormalizedOptions.maskChar o) (NormalizedOptions.showFirst o) v
    (NormalizedOptions.visibleRanges o) (NormalizedOptions.preserveFormat o)
    (NormalizedOptions.customMask o).

(** Option objects of the test suite. *)
Definition withShow (f l : option Z) : option MaskOptions.t :=
  Some (MaskOptions.mk None f l None None None None None).
Definition withFormat : option MaskOptions.t :=
  Some (MaskOptions.mk None None None None None None (Some true) None).
Definition withRanges (rs : list Range) (fmt : option bool) : option MaskOptions.t :=
  Some (MaskOptions.mk None None None None None (Some rs) fmt None).
Definition withCustom (f : CustomMask) (fmt : option bool) : option MaskOptions.t :=
  Some (MaskOptions.mk None None None None None None fmt (Some f)).

(** ** The two walks, character by character

    These two definitions are not translations of source functions.
    [digitOnlyWalk] spells out the walk that the specification words in
    4.7; [formatWalk] is the walk of 4.6 with the counter advanced by
    every character that is not a formatting character.  The maskers of
    the source, which build an array with [map] and [join] it, are proved
    equal to them. *)

(** Digit-only mode: walk the stripped string with a zero-based [index];
    a ['+'] passes through, any other character is shown or replaced by
    maskChar as the predicate says at [index], with [length] as total. *)
Fixpoint digitOnlyWalk (options : NormalizedOptions.t) (length index : Z)
    (stripped : jsstring) : jsstring :=
  match stripped with
  | [] => []
  | c :: rest =>
      (if (c =? PLUS)%N then [c]
       else if isCharVisible index length options then [c]
       else NormalizedOptions.maskChar options)
        ++ digitOnlyWalk options length (index + 1) rest
  end.

(** Format-preserving mode: a formatting character passes through and
    leaves [counter] alone; every other character, digit or not, is shown
    or replaced by maskChar as the predicate says at [counter], and
    advances [counter] by one. *)
Fixpoint formatWalk (options : NormalizedOptions.t) (totalDigits counter : Z)
    (chars : jsstring) : jsstring :=
  match chars with
  | [] => []
  | c :: rest =>
      if isFormattingChar c
      then c :: formatWalk options totalDigits counter rest
      else (if isCharVisible counter totalDigits options then [c]
            else NormalizedOptions.maskChar options)
             ++ formatWalk options totalDigits (counter + 1) rest
  end.

(** ** The type guard of [src/types.ts] *)

(** [typeof value] *)
Definition typeOf (value : JsValue) : jsstring :=
  match value with
  | JsNull => js "object"
  | JsUndefined => js "undefined"
  | JsString _ => js "string"
  | JsNumber _ => js "number"
  | JsBoolean _ => js "boolean"
  | JsBigInt _ => js "bigint"
  | JsObject _ => js "object"
  end.

Definition isValidPhoneInput (value : JsValue) : bool :=
  bool_decide (typeOf value = js "string")
  || bool_decide (typeOf value = js "number").

(** ** Further definitions used in the statements *)

(** The characters [stripFormatting] keeps. *)
Definition keptChar (c : char) : bool := isDigit c || (c =? PLUS)%N.

(** [maskPhone] after its two normalizations: what it does with the
    normalized string and the resolved options. *)
Definition maskPhoneResolved (phoneStr : jsstring) (o : NormalizedOptions.t) : jsstring :=
  if isEmptyString phoneStr then []
  else if negb (truthy (NormalizedOptions.customMask o))
          && negb (truthy (NormalizedOptions.visibleRanges o))
          && (len (stripFormatting phoneStr)
              <=? NormalizedOptions.showFirst o + NormalizedOptions.showLast o)
  then phoneStr
  else if NormalizedOptions.preserveFormat o
       then maskWithFormat phoneStr o
       else maskWithoutFormat phoneStr o.

Definition setVisibleRanges (ranges : option (list Range)) (o : NormalizedOptions.t)
    : NormalizedOptions.t :=
  NormalizedOptions.mk
    (NormalizedOptions.maskChar o) (NormalizedOptions.showFirst o)
    (NormalizedOptions.showLast o) ranges (NormalizedOptions.preserveFormat o)
    (NormalizedOptions.customMask o).

(** [maskChar.repeat(count)] *)
Definition maskRun (count : nat) (maskChar : jsstring) : jsstring :=
  join (replicate count maskChar).

(** Resolved options that carry only the two counts and a mask. *)
Definition countsOnly (maskChar : jsstring) (first last : Z) : NormalizedOptions.t :=
  NormalizedOptions.mk maskChar first last None false None.

(** ** The scenarios of the test suite, run on the embedding *)

Module Scenarios.
Example default_last4 :
  maskPhone (JsString (js "1234567890")) None = js "******7890".
Proof. reflexivity. Qed.

Example number_input :
  maskPhone (JsNumber (js "1234567890")) None = js "******7890".
Proof. reflexivity. Qed.

Example first3_last4 :
  maskPhone (JsString (js "1234567890")) (withShow (Some 3) (Some 4)) = js "123***7890".
Proof. reflexivity. Qed.

Example preserve_us :
  maskPhone (JsString (js "+1 (555) 123-4567")) withFormat = js "+* (***) ***-4567".
Proof. reflexivity. Qed.

Example strip_us :
  maskPhone (JsString (js "+1 (234) 567-8901")) None = js "+*******8901".
Proof. reflexivity. Qed.

Example ranges_union :
  maskPhone (JsString (js "1234567890")) (withRanges [(0, 3); (2, 5)] None)
  = js "123456****".
Proof. reflexivity. Qed.

Example ranges_with_format :
  maskPhone (JsString (js "+1 (555) 123-4567"))
            (withRanges [(0, 3); (12, 15)] (Some true))
  = js "+1 (555) ***-****".
Proof. reflexivity. Qed.

Example ranges_with_plus :
  maskPhone (JsString (js "+441234567890")) (withRanges [(0, 2); (6, 8)] None)
  = js "+44***456****".
Proof. reflexivity. Qed.

Example negative_counts :
  maskPhone (JsString (js "1234567890")) (withShow (Some (-1)) (Some (-1)))
  = js "**********".
Proof. reflexivity. Qed.

Example only_non_digits :
  maskPhone (JsString (js "abcd-efgh")) None = js "abcd-efgh".
Proof. reflexivity. Qed.

Example mixed_characters :
  maskPhone (JsString (js "1a2b3c4d5e6f7g8h9i0j")) None = js "******7890".
Proof. reflexivity. Qed.

Example two_plus_signs :
  maskPhone (JsString (js "++1234567890")) None = js "++******7890".
Proof. reflexivity. Qed.

Example bigint_input :
  maskPhone (JsBigInt 1234567890) None = js "******7890".
Proof. reflexivity. Qed.

Example boolean_input :
  maskPhone (JsBoolean true) None = js "true".
Proof. reflexivity. Qed.

Example object_input :
  maskPhone (JsObject (Some (JsString (js "123")))) None = js "123".
Proof. reflexivity. Qed.

Example custom_every_other :
  maskPhone (JsString (js "1234567890"))
    (withCustom (fun c idx _ => if Z.even idx then js "*" else c) None)
  = js "*2*4*6*8*0".
Proof. reflexivity. Qed.
End Scenarios.

(** ** Basic facts about strings *)

Section StringFacts.

Lemma len_nonneg (s : jsstring) : 0 <= len s.
Proof. unfold len, arrayLength. lia. Qed.

Lemma trimStart_blank (s : jsstring) :
  forallb isWhiteSpace s = true -> trimStart s = [].
Proof.
  induction s as [|c s IH]; simpl; [done|].
  intros [Hc Hs]%andb_prop. rewrite Hc. auto.
Qed.

Lemma trim_blank (s : jsstring) :
  forallb isWhiteSpace s = true -> trim s = [].
Proof. intros H. unfold trim, trimEnd. by rewrite (trimStart_blank s H). Qed.

Lemma length_join_units (parts : list jsstring) :
  Forall (fun p => length p = 1%nat) parts ->
  length (join parts) = length parts.
Proof.
  unfold join. induction 1 as [|p parts Hp _ IH]; simpl; [done|].
  rewrite length_app, Hp, IH. done.
Qed.

End StringFacts.

(** ** Option resolution *)

(** C6: option resolution yields maskChar = options.maskChar if provided,
    else ['*']; showFirst = options.showFirst if defined, else
    options.showStart if defined, else 0; showLast = options.showLast if
    defined, else options.showEnd if defined, else 4.  The same defaults
    (['*'], 0, 4) are produced when no options object is passed at all. *)
Theorem normalizeOptions_resolution (options : MaskOptions.t) :
  let resolved := normalizeOptions (Some options) in
  NormalizedOptions.maskChar resolved
    = match MaskOptions.maskChar options with
      | Some m => m
      | None => js "*"
      end
  /\ NormalizedOptions.showFirst resolved
    = match MaskOptions.showFirst options, MaskOptions.showStart options with
      | Some first, _ => first
      | None, Some start => start
      | None, None => 0
      end
  /\ NormalizedOptions.showLast resolved
    = match MaskOptions.showLast options, MaskOptions.showEnd options with
      | Some last, _ => last
      | None, Some end_ => end_
      | None, None => 4
      end
  /\ NormalizedOptions.maskChar (normalizeOptions None) = js "*"
  /\ NormalizedOptions.showFirst (normalizeOptions None) = 0
  /\ NormalizedOptions.showLast (normalizeOptions None) = 4.
Proof.
  destruct options as [mc sf sl ss se vr pf cm].
  cbv zeta. unfold normalizeOptions, nullish, nullishOpt. simpl.
  split; [by destruct mc|].
  split; [by destruct sf, ss|].
  split; [by destruct sl, se|].
  done.
Qed.

(** ** The visibility predicate *)

Section Visibility.

Variables (index length : Z) (options : NormalizedOptions.t).

Lemma inRange_spec (r : Range) :
  inRange index r = true <-> r.1 <= index <= r.2.
Proof. destruct r as [s e]; simpl. rewrite andb_true_iff, !Z.leb_le. done. Qed.

Lemma some_inRange_spec (ranges : list Range) :
  existsb (inRange index) ranges = true
  <-> exists r, In r ranges /\ r.1 <= index <= r.2.
Proof.
  rewrite existsb_exists. split; intros (r & Hin & Hr); exists r; split; auto;
    by apply inRange_spec.
Qed.

Lemma byCounts_spec :
  (if (0 <? NormalizedOptions.showFirst options)
      && (index <? NormalizedOptions.showFirst options)
   then true
   else if (0 <? NormalizedOptions.showLast options)
           && (length - NormalizedOptions.showLast options <=? index)
   then true else false) = true
  <-> (NormalizedOptions.showFirst options > 0
       /\ index < NormalizedOptions.showFirst options)
      \/ (NormalizedOptions.showLast options > 0
          /\ index >= length - NormalizedOptions.showLast options).
Proof.
  destruct (0 <? _) eqn:Hf, (index <? _) eqn:Hi,
           (0 <? NormalizedOptions.showLast options) eqn:Hl,
           (_ <=? index) eqn:Hn; simpl;
    rewrite ?Z.ltb_lt, ?Z.ltb_ge, ?Z.leb_le, ?Z.leb_gt in *;
    split; try done; try lia.
Qed.

End Visibility.

(** C2: when visibleRanges is present and non-empty, the predicate is true
    exactly when the index lies in one of the inclusive ranges (their
    union; showFirst and showLast play no part); otherwise it is true
    exactly when (showFirst > 0 and index < showFirst) or (showLast > 0 and
    index >= length - showLast). *)
Theorem isCharVisible_spec (index length : Z) (options : NormalizedOptions.t) :
  isCharVisible index length options = true
  <-> match NormalizedOptions.visibleRanges options with
      | Some (r :: rs) =>
          exists range, In range (r :: rs) /\ range.1 <= index <= range.2
      | Some [] | None =>
          (NormalizedOptions.showFirst options > 0
           /\ index < NormalizedOptions.showFirst options)
          \/ (NormalizedOptions.showLast options > 0
              /\ index >= length - NormalizedOptions.showLast options)
      end.
Proof.
  unfold isCharVisible.
  destruct (NormalizedOptions.visibleRanges options) as [[|r rs]|].
  - apply byCounts_spec.
  - change (0 <? arrayLength (r :: rs)) with true. cbv iota.
    apply some_inRange_spec.
  - apply byCounts_spec.
Qed.

(** C7: a negative showFirst (respectively showLast) gives the predicate
    the same value, at every index and every total, as the value 0 in that
    field. *)
Theorem isCharVisible_negative_as_zero
    (index length v : Z) (options : NormalizedOptions.t) :
  v < 0 ->
  isCharVisible index length (setShowFirst v options)
    = isCharVisible index length (setShowFirst 0 options)
  /\ isCharVisible index length (setShowLast v options)
    = isCharVisible index length (setShowLast 0 options).
Proof.
  intros Hv. unfold isCharVisible, setShowFirst, setShowLast; simpl.
  assert (Hneg : (0 <? v) = false) by (apply Z.ltb_ge; lia).
  rewrite Hneg. simpl. done.
Qed.

Lemma isCharVisible_negative_as_zero_witness :
  -1 < 0
  /\ isCharVisible 0 10 (setShowFirst (-1) (normalizeOptions None))
     = isCharVisible 0 10 (setShowFirst 0 (normalizeOptions None))
  /\ isCharVisible 0 10 (setShowLast (-1) (normalizeOptions None))
     = isCharVisible 0 10 (setShowLast 0 (normalizeOptions None)).
Proof.
  split; [lia|].
  apply (isCharVisible_negative_as_zero 0 10 (-1) (normalizeOptions None)); lia.
Defined.

(** ** The top-level function: empty input and the short-input bypass *)

Lemma maskPhone_normalized (a b : JsValue) (options : option MaskOptions.t) :
  normalizePhone a = normalizePhone b ->
  maskPhone a options = maskPhone b options.
Proof. unfold maskPhone. by intros ->. Qed.

Lemma maskPhone_empty (phone : JsValue) (options : option MaskOptions.t) :
  normalizePhone phone = [] -> maskPhone phone options = [].
Proof. unfold maskPhone. by intros ->. Qed.

(** What [maskPhone] does once the input is known to be non-empty. *)
Lemma maskPhone_dispatch (phone : JsValue) (options : option MaskOptions.t) :
  maskPhone phone options
  = let phoneStr := normalizePhone phone in
    if isEmptyString phoneStr then []
    else if bypassTaken phoneStr options then phoneStr
    else if NormalizedOptions.preserveFormat (normalizeOptions options)
         then maskWithFormat phoneStr (normalizeOptions options)
         else maskWithoutFormat phoneStr (normalizeOptions options).
Proof. reflexivity. Qed.

Lemma maskPhone_bypassTaken (phone : JsValue) (options : option MaskOptions.t) :
  bypassTaken (normalizePhone phone) options = true ->
  maskPhone phone options = normalizePhone phone.
Proof.
  intros Hby. rewrite maskPhone_dispatch. cbv zeta. rewrite Hby.
  by destruct (normalizePhone phone).
Qed.

(** C8: for every options object (with or without customMask or
    visibleRanges), [maskPhone] returns the empty string when the input is
    null, undefined, the empty string, or a string made only of
    whitespace. *)
Theorem maskPhone_blank_input (phone : JsValue) (options : option MaskOptions.t) :
  phone = JsNull
  \/ phone = JsUndefined
  \/ (exists s, phone = JsString s /\ forallb isWhiteSpace s = true) ->
  maskPhone phone options = [].
Proof.
  intros [-> | [-> | (s & -> & Hs)]]; apply maskPhone_empty; simpl; try done.
  by apply trim_blank.
Qed.

Lemma maskPhone_blank_input_witness :
  maskPhone (JsString (js "   "))
            (withCustom (fun _ _ _ => js "#") (Some true)) = []
  /\ maskPhone JsNull (withRanges [(0, 2)] None) = []
  /\ maskPhone JsUndefined None = []
  /\ maskPhone (JsString []) withFormat = [].
Proof.
  split; [|split; [|split]].
  - apply (maskPhone_blank_input (JsString (js "   "))).
    right; right. exists (js "   "). split; reflexivity.
  - apply (maskPhone_blank_input JsNull). left; reflexivity.
  - apply (maskPhone_blank_input JsUndefined). right; left; reflexivity.
  - apply (maskPhone_blank_input (JsString [])).
    right; right. exists []. split; reflexivity.
Defined.

(** C1: for every input value and every options object that supplies
    neither customMask nor visibleRanges, if the stripped normalized
    input is no longer than the resolved showFirst plus the resolved
    showLast, [maskPhone] returns the normalized input string unchanged. *)
Theorem maskPhone_bypass (phone : JsValue) (options : option MaskOptions.t) :
  optChain options MaskOptions.customMask = None ->
  optChain options MaskOptions.visibleRanges = None ->
  len (stripFormatting (normalizePhone phone))
    <= NormalizedOptions.showFirst (normalizeOptions options)
       + NormalizedOptions.showLast (normalizeOptions options) ->
  maskPhone phone options = normalizePhone phone.
Proof.
  intros Hcm Hvr Hlen. apply maskPhone_bypassTaken.
  unfold bypassTaken. rewrite Hcm, Hvr. simpl. by apply Z.leb_le.
Qed.

Lemma maskPhone_bypass_witness :
  len (stripFormatting (normalizePhone (JsString (js " (12) 3-4 "))))
    <= NormalizedOptions.showFirst (normalizeOptions (withShow (Some 1) (Some 3)))
       + NormalizedOptions.showLast (normalizeOptions (withShow (Some 1) (Some 3)))
  /\ maskPhone (JsString (js " (12) 3-4 ")) (withShow (Some 1) (Some 3))
     = js "(12) 3-4".
Proof.
  split; [by vm_compute|].
  apply (maskPhone_bypass (JsString (js " (12) 3-4 ")) (withShow (Some 1) (Some 3)));
    [reflexivity | reflexivity | by vm_compute].
Defined.

(** ** Object inputs *)

(** C10, as the code has it: for an object input whose phone property is
    null (respectively undefined), the normalized string is ["null"]
    (respectively ["undefined"]), not the empty string: the
    null/undefined-to-empty rule is applied to the outer value only,
    before the phone field is read and passed to [String].  [maskPhone]
    returns that string when it is called without options, and under any
    options that supply neither customMask nor visibleRanges and whose
    showFirst + showLast is not negative; under every options object the
    input is treated exactly as that string would be. *)
Theorem maskPhone_object_nullish_phone (v : JsValue) (name : jsstring) :
  (v = JsNull /\ name = js "null") \/ (v = JsUndefined /\ name = js "undefined") ->
  normalizePhone (JsObject (Some v)) = name
  /\ name <> []
  /\ maskPhone (JsObject (Some v)) None = name
  /\ (forall options,
        optChain options MaskOptions.customMask = None ->
        optChain options MaskOptions.visibleRanges = None ->
        0 <= NormalizedOptions.showFirst (normalizeOptions options)
             + NormalizedOptions.showLast (normalizeOptions options) ->
        maskPhone (JsObject (Some v)) options = name)
  /\ forall options,
       maskPhone (JsObject (Some v)) options = maskPhone (JsString name) options.
Proof.
  intros Hv.
  assert (Hnorm : normalizePhone (JsObject (Some v)) = name).
  { destruct Hv as [[-> ->] | [-> ->]]; reflexivity. }
  assert (Hstr : normalizePhone (JsString name) = name).
  { destruct Hv as [[_ ->] | [_ ->]]; reflexivity. }
  split; [done|]. split; [by destruct Hv as [[_ ->] | [_ ->]]|].
  assert (Hstrip : stripFormatting name = []).
  { destruct Hv as [[_ ->] | [_ ->]]; reflexivity. }
  split; [|split].
  - rewrite (maskPhone_normalized _ (JsString name)) by congruence.
    destruct Hv as [[_ ->] | [_ ->]]; reflexivity.
  - intros options Hcm Hvr Hsum.
    rewrite (maskPhone_bypassTaken (JsObject (Some v)) options); [done|].
    unfold bypassTaken. rewrite Hnorm, Hcm, Hvr, Hstrip. simpl.
    by apply Z.leb_le.
  - intros options. apply maskPhone_normalized. congruence.
Qed.

Lemma maskPhone_object_nullish_phone_witness :
  maskPhone (JsObject (Some JsNull)) None = js "null"
  /\ maskPhone (JsObject (Some JsUndefined)) (withShow (Some 1) (Some 2))
     = js "undefined".
Proof.
  split.
  - apply (maskPhone_object_nullish_phone JsNull (js "null")).
    left; split; reflexivity.
  - destruct (maskPhone_object_nullish_phone JsUndefined (js "undefined")
                (or_intror (conj eq_refl eq_refl))) as (_ & _ & _ & Hopts & _).
    apply Hopts; [reflexivity | reflexivity | by vm_compute].
Defined.

(** C10 as stated, for every options object, fails: the object
    [{phone: null}] normalizes to ["null"], but with [{showLast: -1}] the
    bypass is not taken (0 <= 0 + -1 is false) and the digit-only masker
    strips ["null"] to the empty string, which [maskPhone] returns. *)
Lemma maskPhone_object_nullish_phone_counterexample :
  normalizePhone (JsObject (Some JsNull)) = js "null"
  /\ maskPhone (JsObject (Some JsNull)) (withShow None (Some (-1))) = []
  /\ maskPhone (JsObject (Some JsNull)) (withShow None (Some (-1))) <> js "null".
Proof. repeat split; vm_compute; congruence. Qed.

(** ** The two maskers under a custom callback *)

Section Custom.

Variables (f : CustomMask) (options : NormalizedOptions.t).
Hypothesis Hcustom : NormalizedOptions.customMask options = Some f.

Lemma maskWithFormat_map_custom (phone : jsstring) (totalDigits : Z) :
  forall chars charIndex digitIndex,
    maskWithFormat_map phone totalDigits options charIndex digitIndex chars
    = imap (fun k c => f [c] (charIndex + Z.of_nat k) phone) chars.
Proof.
  induction chars as [|c chars IH]; intros charIndex digitIndex; simpl; [done|].
  rewrite Hcustom, IH, Z.add_0_r. f_equal.
  apply imap_ext. intros k x _. simpl. f_equal. lia.
Qed.

Lemma maskWithFormat_custom (phone : jsstring) :
  maskWithFormat phone options = customOutput f phone.
Proof.
  unfold maskWithFormat, customOutput. by rewrite maskWithFormat_map_custom.
Qed.

Lemma maskWithoutFormat_custom (phone : jsstring) :
  maskWithoutFormat phone options = customOutput f (stripFormatting phone).
Proof.
  unfold maskWithoutFormat, maskWithoutFormat_map, customOutput.
  by rewrite Hcustom.
Qed.

End Custom.

Lemma maskPhone_custom (phone : JsValue) (f : CustomMask) (o : MaskOptions.t) :
  MaskOptions.customMask o = Some f ->
  maskPhone phone (Some o)
  = customOutput f
      (if NormalizedOptions.preserveFormat (normalizeOptions (Some o))
       then normalizePhone phone
       else stripFormatting (normalizePhone phone)).
Proof.
  intros Hf. rewrite maskPhone_dispatch. cbv zeta.
  assert (Hn : NormalizedOptions.customMask (normalizeOptions (Some o)) = Some f)
    by done.
  assert (Hby : bypassTaken (normalizePhone phone) (Some o) = false).
  { unfold bypassTaken. simpl. by rewrite Hf. }
  rewrite Hby.
  destruct (normalizePhone phone) as [|c s] eqn:Hp.
  - by destruct (NormalizedOptions.preserveFormat _).
  - cbv iota beta. simpl isEmptyString. cbv iota.
    destruct (NormalizedOptions.preserveFormat _).
    + by apply maskWithFormat_custom.
    + by apply maskWithoutFormat_custom.
Qed.

(** C5: two options objects that set the same customMask and agree on
    preserveFormat give the same output on every input: with a customMask
    the result does not depend on maskChar, showFirst, showLast,
    showStart, showEnd or visibleRanges, and the short-input bypass is not
    taken (the output is the callback applied to every character of the
    normalized string, or of its stripped form in digit-only mode). *)
Theorem maskPhone_customMask_determines
    (phone : JsValue) (f : CustomMask) (o1 o2 : MaskOptions.t) :
  MaskOptions.customMask o1 = Some f ->
  MaskOptions.customMask o2 = Some f ->
  NormalizedOptions.preserveFormat (normalizeOptions (Some o1))
    = NormalizedOptions.preserveFormat (normalizeOptions (Some o2)) ->
  maskPhone phone (Some o1) = maskPhone phone (Some o2)
  /\ maskPhone phone (Some o1)
     = customOutput f
         (if NormalizedOptions.preserveFormat (normalizeOptions (Some o1))
          then normalizePhone phone
          else stripFormatting (normalizePhone phone)).
Proof.
  intros H1 H2 Hpf.
  rewrite (maskPhone_custom phone f o1 H1), (maskPhone_custom phone f o2 H2), Hpf.
  done.
Qed.

Lemma maskPhone_customMask_determines_witness :
  maskPhone (JsString (js "12-34"))
    (Some (MaskOptions.mk (Some (js "#")) (Some 1) (Some 9) None (Some 2)
                          (Some [(0, 1)]) None (Some (fun c i _ => js "x"))))
  = maskPhone (JsString (js "12-34"))
      (Some (MaskOptions.mk None None None (Some 3) None
                            None (Some false) (Some (fun c i _ => js "x")))).
Proof.
  apply (maskPhone_customMask_determines (JsString (js "12-34"))
           (fun c i _ => js "x")); reflexivity.
Defined.

(** ** Output length *)

Section Lengths.

Variable options : NormalizedOptions.t.
Hypothesis Hnocustom : NormalizedOptions.customMask options = None.
Hypothesis Hunit : length (NormalizedOptions.maskChar options) = 1%nat.

Lemma maskWithFormat_map_units (phone : jsstring) (totalDigits : Z) :
  forall chars charIndex digitIndex,
    Forall (fun p => length p = 1%nat)
           (maskWithFormat_map phone totalDigits options charIndex digitIndex chars)
    /\ length (maskWithFormat_map phone totalDigits options charIndex digitIndex chars)
       = length chars.
Proof.
  induction chars as [|c chars IH]; intros charIndex digitIndex; simpl; [done|].
  rewrite Hnocustom.
  destruct (isFormattingChar c).
  - destruct (IH (charIndex + 1) digitIndex) as [HF HL].
    split; [by constructor | simpl; by rewrite HL].
  - destruct (IH (charIndex + 1) (digitIndex + 1)) as [HF HL].
    split; [|simpl; by rewrite HL].
    constructor; [|done]. by destruct (isCharVisible _ _ _).
Qed.

Lemma length_maskWithFormat (phone : jsstring) :
  length (maskWithFormat phone options) = length phone.
Proof.
  unfold maskWithFormat.
  destruct (maskWithFormat_map_units phone (len (digitsOf phone)) phone 0 (-1))
    as [HF HL].
  by rewrite length_join_units.
Qed.

Lemma length_maskWithoutFormat (phone : jsstring) :
  length (maskWithoutFormat phone options) = length (stripFormatting phone).
Proof.
  unfold maskWithoutFormat, maskWithoutFormat_map.
  rewrite length_join_units; [apply length_imap|].
  apply Forall_lookup. intros i p (c & _ & ->)%list_lookup_imap_Some.
  rewrite Hnocustom.
  destruct (c =? PLUS)%N; [done|]. by destruct (isCharVisible _ _ _).
Qed.

End Lengths.

(** C3, as the code has it: for every input and every options object
    without customMask and with a one-character maskChar, the output has
    the length of the normalized input string when preserveFormat is
    true; it has the length of the stripped normalized input string when
    preserveFormat is false and the short-input bypass is not taken; and
    whenever the bypass is taken the output is the normalized input string
    itself, separators included. *)
Theorem maskPhone_output_length (phone : JsValue) (options : option MaskOptions.t) :
  optChain options MaskOptions.customMask = None ->
  length (NormalizedOptions.maskChar (normalizeOptions options)) = 1%nat ->
  (NormalizedOptions.preserveFormat (normalizeOptions options) = true ->
   length (maskPhone phone options) = length (normalizePhone phone))
  /\ (NormalizedOptions.preserveFormat (normalizeOptions options) = false ->
      bypassTaken (normalizePhone phone) options = false ->
      length (maskPhone phone options)
      = length (stripFormatting (normalizePhone phone)))
  /\ (bypassTaken (normalizePhone phone) options = true ->
      maskPhone phone options = normalizePhone phone).
Proof.
  intros Hcm Hunit.
  assert (Hn : NormalizedOptions.customMask (normalizeOptions options) = None).
  { destruct options as [o|]; [exact Hcm | reflexivity]. }
  rewrite maskPhone_dispatch. cbv zeta.
  destruct (normalizePhone phone) as [|c s] eqn:Hp.
  { simpl. repeat split; done. }
  simpl isEmptyString. cbv iota.
  split; [|split].
  - intros ->. destruct (bypassTaken _ _); [done|].
    by apply length_maskWithFormat.
  - intros -> ->. by apply length_maskWithoutFormat.
  - by intros ->.
Qed.

Lemma maskPhone_output_length_witness :
  length (maskPhone (JsString (js "+1 (555) 123-4567")) None)
  = length (stripFormatting (normalizePhone (JsString (js "+1 (555) 123-4567")))).
Proof.
  apply (maskPhone_output_length (JsString (js "+1 (555) 123-4567")) None);
    reflexivity.
Defined.

(** C3 as stated fails in digit-only mode when the bypass is taken: with
    no options, ["12-3"] strips to three characters, which is within the
    default showLast of 4, so the four-character input is returned as it
    is. *)
Lemma maskPhone_output_length_counterexample :
  optChain None MaskOptions.customMask = None
  /\ length (NormalizedOptions.maskChar (normalizeOptions None)) = 1%nat
  /\ NormalizedOptions.preserveFormat (normalizeOptions None) = false
  /\ maskPhone (JsString (js "12-3")) None = js "12-3"
  /\ length (maskPhone (JsString (js "12-3")) None) = 4%nat
  /\ length (stripFormatting (normalizePhone (JsString (js "12-3")))) = 3%nat
  /\ length (maskPhone (JsString (js "12-3")) None)
     <> length (stripFormatting (normalizePhone (JsString (js "12-3")))).
Proof. repeat split; vm_compute; congruence. Qed.

(** ** Digit-only mode: how ['+'] is indexed *)

Section Stripped.

Lemma digit_not_plus (c : char) : isDigit c = true -> (c =? PLUS)%N = false.
Proof.
  unfold isDigit, PLUS. intros [H1 H2]%andb_prop.
  apply N.leb_le in H1. apply N.eqb_neq. lia.
Qed.

Lemma len_kept (s : jsstring) :
  Forall (fun c => isDigit c || (c =? PLUS)%N = true) s ->
  len s = len (digitsOf s) + len (plusesOf s).
Proof.
  unfold len, arrayLength, digitsOf, plusesOf.
  induction 1 as [|c s Hc _ IH]; simpl; [done|].
  destruct (isDigit c) eqn:Hd.
  - rewrite (digit_not_plus c Hd). simpl. lia.
  - simpl in Hc. rewrite Hc. simpl. lia.
Qed.

Lemma stripFormatting_kept (phone : jsstring) :
  Forall (fun c => isDigit c || (c =? PLUS)%N = true) (stripFormatting phone).
Proof.
  unfold stripFormatting. apply List.Forall_forall.
  intros c Hc. by apply List.filter_In in Hc as [_ Hc].
Qed.

Lemma digitsOf_stripFormatting (phone : jsstring) :
  digitsOf (stripFormatting phone) = digitsOf phone.
Proof.
  unfold digitsOf, stripFormatting.
  induction phone as [|c s IH]; simpl; [done|].
  destruct (isDigit c) eqn:Hd; simpl; [by rewrite Hd, IH|].
  destruct (c =? PLUS)%N; simpl; [by rewrite Hd|done].
Qed.

Lemma plusesOf_stripFormatting (phone : jsstring) :
  plusesOf (stripFormatting phone) = plusesOf phone.
Proof.
  unfold plusesOf, stripFormatting.
  induction phone as [|c s IH]; simpl; [done|].
  destruct (isDigit c) eqn:Hd; simpl.
  - rewrite (digit_not_plus c Hd). done.
  - destruct (c =? PLUS)%N eqn:Hp; simpl; [by rewrite Hp, IH|done].
Qed.

End Stripped.

Section DigitWalk.

Variable options : NormalizedOptions.t.

Lemma digitOnlyWalk_app (total : Z) (a b : jsstring) :
  forall index,
    digitOnlyWalk options total index (a ++ b)
    = digitOnlyWalk options total index a
      ++ digitOnlyWalk options total (index + len a) b.
Proof.
  induction a as [|c a IH]; intros index; simpl.
  - by rewrite Z.add_0_r.
  - rewrite IH, <- app_assoc. do 3 f_equal. unfold len, arrayLength. simpl length. lia.
Qed.

Lemma digitOnlyWalk_length (total : Z) (m : char) (s : jsstring) :
  NormalizedOptions.maskChar options = [m] ->
  forall index, List.length (digitOnlyWalk options total index s) = List.length s.
Proof.
  intros Hm. induction s as [|c s IH]; intros index; simpl; [done|].
  rewrite length_app, IH, Hm.
  destruct (c =? PLUS)%N; [done|]. by destruct (isCharVisible _ _ _).
Qed.

Hypothesis Hnocustom : NormalizedOptions.customMask options = None.

Lemma maskWithoutFormat_map_walk (total : Z) (s : jsstring) :
  forall k : nat,
    join (imap (fun i c =>
                  if (c =? PLUS)%N then [c]
                  else if isCharVisible (Z.of_nat (k + i)) total options then [c]
                  else NormalizedOptions.maskChar options) s)
    = digitOnlyWalk options total (Z.of_nat k) s.
Proof.
  induction s as [|c s IH]; intros k; [done|].
  rewrite imap_cons.
  change (join (?p :: ?ps)) with (p ++ join ps).
  simpl digitOnlyWalk. replace (k + 0)%nat with k by lia. f_equal.
  replace (Z.of_nat k + 1) with (Z.of_nat (S k)) by lia. rewrite <- IH.
  f_equal. apply imap_ext. intros i x _. simpl.
  by replace (k + S i)%nat with (S k + i)%nat by lia.
Qed.

Lemma maskWithoutFormat_walk (phone : jsstring) :
  maskWithoutFormat phone options
  = digitOnlyWalk options (len (stripFormatting phone)) 0 (stripFormatting phone).
Proof.
  unfold maskWithoutFormat, maskWithoutFormat_map. rewrite Hnocustom.
  by rewrite <- (maskWithoutFormat_map_walk _ _ 0).
Qed.

End DigitWalk.

(** C4: in digit-only mode without customMask the output is the walk
    over the stripped string in which a ['+'] is passed through as it is
    and every other character is decided by the visibility predicate at
    its index within the stripped string, with the length of the stripped
    string as the total.  Both numbers count the ['+'] characters: the
    index of a character is the number of digits plus the number of ['+']
    before it, the total the number of digits plus the number of ['+'] of
    the whole input, so that each ['+'] moves every later character one
    index further.  With a one-character maskChar the character of the
    output at that position is the input character or maskChar
    accordingly. *)
Theorem maskWithoutFormat_plus_indexing
    (phone : jsstring) (options : NormalizedOptions.t)
    (pre post : jsstring) (c : char) :
  NormalizedOptions.customMask options = None ->
  stripFormatting phone = pre ++ c :: post ->
  let total := len (digitsOf phone) + len (plusesOf phone) in
  let index := len (digitsOf pre) + len (plusesOf pre) in
  total = len (stripFormatting phone)
  /\ index = len pre
  /\ maskWithoutFormat phone options
     = digitOnlyWalk options total 0 (stripFormatting phone)
  /\ maskWithoutFormat phone options
     = digitOnlyWalk options total 0 pre
       ++ (if (c =? PLUS)%N then [c]
           else if isCharVisible index total options then [c]
           else NormalizedOptions.maskChar options)
       ++ digitOnlyWalk options total (index + 1) post
  /\ (forall m,
        NormalizedOptions.maskChar options = [m] ->
        maskWithoutFormat phone options !! List.length pre
        = Some (if (c =? PLUS)%N then c
                else if isCharVisible index total options then c
                else m))
  /\ (forall input callerOptions,
        normalizePhone input = phone ->
        normalizeOptions callerOptions = options ->
        NormalizedOptions.preserveFormat options = false ->
        bypassTaken phone callerOptions = false ->
        maskPhone input callerOptions
        = digitOnlyWalk options total 0 (stripFormatting phone)).
Proof.
  intros Hcm Hsplit total index.
  assert (Htotal : total = len (stripFormatting phone)).
  { unfold total. rewrite (len_kept _ (stripFormatting_kept phone)).
    by rewrite digitsOf_stripFormatting, plusesOf_stripFormatting. }
  assert (Hindex : index = len pre).
  { unfold index. symmetry. apply len_kept.
    pose proof (stripFormatting_kept phone) as HF. rewrite Hsplit in HF.
    by apply Forall_app in HF as [HF _]. }
  assert (Hwalk : maskWithoutFormat phone options
                  = digitOnlyWalk options total 0 (stripFormatting phone)).
  { rewrite Htotal. by apply maskWithoutFormat_walk. }
  assert (Hparts : maskWithoutFormat phone options
                   = digitOnlyWalk options total 0 pre
                     ++ (if (c =? PLUS)%N then [c]
                         else if isCharVisible index total options then [c]
                         else NormalizedOptions.maskChar options)
                     ++ digitOnlyWalk options total (index + 1) post).
  { rewrite Hwalk, Hsplit, digitOnlyWalk_app. simpl. by rewrite Hindex. }
  split; [done|]. split; [done|]. split; [done|]. split; [done|]. split.
  - intros m Hm. rewrite Hparts, Hm.
    destruct (c =? PLUS)%N; [|destruct (isCharVisible _ _ _)];
      apply list_lookup_middle;
      by rewrite (digitOnlyWalk_length options total m pre Hm).
  - intros input callerOptions Hin Hopts Hpf Hby.
    rewrite maskPhone_dispatch. cbv zeta. rewrite Hin, Hopts, Hby, Hpf.
    destruct phone as [|x phone']; [by destruct pre|]. simpl isEmptyString. cbv iota.
    exact Hwalk.
Qed.

(** The second digit of ["+1 234"] sits at index 2 of the stripped string
    and is masked under showFirst = 2; without the ['+'] it sits at index
    1 and is shown. *)
Lemma maskWithoutFormat_plus_indexing_witness :
  maskWithoutFormat (js "+1 234") (normalizeOptions (withShow (Some 2) (Some 0)))
    !! 2%nat = Some 42%N
  /\ maskWithoutFormat (js "1 234") (normalizeOptions (withShow (Some 2) (Some 0)))
       !! 1%nat = Some 50%N.
Proof.
  split.
  - destruct (maskWithoutFormat_plus_indexing (js "+1 234")
                (normalizeOptions (withShow (Some 2) (Some 0)))
                (js "+1") (js "34") 50%N eq_refl eq_refl)
      as (_ & _ & _ & _ & Hat & _).
    exact (Hat 42%N eq_refl).
  - destruct (maskWithoutFormat_plus_indexing (js "1 234")
                (normalizeOptions (withShow (Some 2) (Some 0)))
                (js "1") (js "34") 50%N eq_refl eq_refl)
      as (_ & _ & _ & _ & Hat & _).
    exact (Hat 42%N eq_refl).
Defined.

(** ** Format-preserving mode: the running counter *)

Section Counter.

Lemma nonFormattingCount_nil : nonFormattingCount [] = 0.
Proof. reflexivity. Qed.

Lemma nonFormattingCount_cons (c : char) (s : jsstring) :
  nonFormattingCount (c :: s)
  = (if isFormattingChar c then 0 else 1) + nonFormattingCount s.
Proof.
  unfold nonFormattingCount, arrayLength. simpl.
  destruct (isFormattingChar c); simpl; lia.
Qed.

Lemma nonFormattingCount_app (s t : jsstring) :
  nonFormattingCount (s ++ t) = nonFormattingCount s + nonFormattingCount t.
Proof.
  induction s as [|c s IH]; simpl; [by rewrite nonFormattingCount_nil|].
  rewrite !nonFormattingCount_cons, IH. lia.
Qed.

Lemma len_digitsOf_app (s t : jsstring) :
  len (digitsOf (s ++ t)) = len (digitsOf s) + len (digitsOf t).
Proof.
  unfold len, arrayLength, digitsOf.
  rewrite List.filter_app, length_app. lia.
Qed.

Variable options : NormalizedOptions.t.
Hypothesis Hnocustom : NormalizedOptions.customMask options = None.

(** The entry produced for the character that follows [pre], when the
    walk starts with the counter at [digitIndex]. *)
Lemma maskWithFormat_map_lookup (phone : jsstring) (totalDigits : Z) (c : char)
      (post : jsstring) :
  forall pre charIndex digitIndex,
    maskWithFormat_map phone totalDigits options charIndex digitIndex
                       (pre ++ c :: post) !! length pre
    = Some (if isFormattingChar c then [c]
            else if isCharVisible (digitIndex + 1 + nonFormattingCount pre)
                                  totalDigits options
                 then [c]
                 else NormalizedOptions.maskChar options).
Proof.
  induction pre as [|a pre IH]; intros charIndex digitIndex; simpl;
    rewrite Hnocustom.
  - rewrite nonFormattingCount_nil, Z.add_0_r.
    by destruct (isFormattingChar c).
  - rewrite nonFormattingCount_cons.
    destruct (isFormattingChar a); simpl; rewrite IH.
    + by rewrite Z.add_0_l.
    + by replace (digitIndex + 1 + 1 + nonFormattingCount pre)
        with (digitIndex + 1 + (1 + nonFormattingCount pre)) by lia.
Qed.

Lemma maskWithFormat_pieces_lookup (pre post : jsstring) (c : char) :
  maskWithFormat_pieces (pre ++ c :: post) options !! length pre
  = Some (if isFormattingChar c then [c]
          else if isCharVisible (nonFormattingCount pre)
                                (len (digitsOf (pre ++ c :: post))) options
               then [c]
               else NormalizedOptions.maskChar options).
Proof.
  unfold maskWithFormat_pieces. rewrite maskWithFormat_map_lookup.
  by replace (-1 + 1 + nonFormattingCount pre) with (nonFormattingCount pre) by lia.
Qed.

End Counter.

Section FormatWalk.

Variable options : NormalizedOptions.t.

Lemma formatWalk_app (totalDigits : Z) (a b : jsstring) :
  forall counter,
    formatWalk options totalDigits counter (a ++ b)
    = formatWalk options totalDigits counter a
      ++ formatWalk options totalDigits (counter + nonFormattingCount a) b.
Proof.
  induction a as [|c a IH]; intros counter; simpl.
  - by rewrite nonFormattingCount_nil, Z.add_0_r.
  - rewrite nonFormattingCount_cons. destruct (isFormattingChar c).
    + by rewrite IH, Z.add_0_l.
    + rewrite IH, <- app_assoc. do 3 f_equal. lia.
Qed.

Lemma formatWalk_length (totalDigits : Z) (m : char) (chars : jsstring) :
  NormalizedOptions.maskChar options = [m] ->
  forall counter,
    List.length (formatWalk options totalDigits counter chars) = List.length chars.
Proof.
  intros Hm. induction chars as [|c chars IH]; intros counter; simpl; [done|].
  destruct (isFormattingChar c); simpl; [by rewrite IH|].
  rewrite length_app, IH, Hm. by destruct (isCharVisible _ _ _).
Qed.

(** The character that follows [a] in the walk, when it is not a
    formatting character and maskChar is one character. *)
Lemma formatWalk_lookup (totalDigits : Z) (m : char) (a b : jsstring) (d : char) :
  NormalizedOptions.maskChar options = [m] ->
  isFormattingChar d = false ->
  forall counter,
    formatWalk options totalDigits counter (a ++ d :: b) !! List.length a
    = Some (if isCharVisible (counter + nonFormattingCount a) totalDigits options
            then d else m).
Proof.
  intros Hm Hd counter. rewrite formatWalk_app. simpl. rewrite Hd, Hm.
  destruct (isCharVisible _ _ _); apply list_lookup_middle;
    by rewrite (formatWalk_length totalDigits m a Hm).
Qed.

Hypothesis Hnocustom : NormalizedOptions.customMask options = None.

Lemma maskWithFormat_map_walk (phone : jsstring) (totalDigits : Z) :
  forall chars charIndex digitIndex,
    join (maskWithFormat_map phone totalDigits options charIndex digitIndex chars)
    = formatWalk options totalDigits (digitIndex + 1) chars.
Proof.
  induction chars as [|c chars IH]; intros charIndex digitIndex; [done|].
  simpl maskWithFormat_map. rewrite Hnocustom. simpl formatWalk.
  destruct (isFormattingChar c);
    change (join (?p :: ?ps)) with (p ++ join ps); by rewrite IH.
Qed.

Lemma maskWithFormat_walk (phone : jsstring) :
  maskWithFormat phone options = formatWalk options (len (digitsOf phone)) 0 phone.
Proof. unfold maskWithFormat. by rewrite maskWithFormat_map_walk. Qed.

End FormatWalk.

(** C9: in format-preserving mode without customMask, a character [c]
    that is neither a decimal digit nor a formatting character is handled
    as a digit.  In the output it is shown or replaced by maskChar as the
    visibility predicate says at the current counter value (the number of
    non-formatting characters before it); it advances the counter, so the
    rest of the string is walked from one index further and every later
    non-formatting character [d] is tested one index further; and it is
    not counted in the total, which is the number of decimal digits
    only. *)
Theorem maskWithFormat_non_digit
    (options : NormalizedOptions.t) (pre post : jsstring) (c : char) :
  NormalizedOptions.customMask options = None ->
  isDigit c = false ->
  isFormattingChar c = false ->
  let phone := pre ++ c :: post in
  let total := len (digitsOf pre) + len (digitsOf post) in
  len (digitsOf phone) = total
  /\ maskWithFormat phone options
     = formatWalk options total 0 pre
       ++ (if isCharVisible (nonFormattingCount pre) total options
           then [c]
           else NormalizedOptions.maskChar options)
       ++ formatWalk options total (nonFormattingCount pre + 1) post
  /\ (forall m,
        NormalizedOptions.maskChar options = [m] ->
        maskWithFormat phone options !! List.length pre
        = Some (if isCharVisible (nonFormattingCount pre) total options
                then c else m)
        /\ forall mid rest d,
             post = mid ++ d :: rest ->
             isFormattingChar d = false ->
             maskWithFormat phone options
               !! (List.length pre + 1 + List.length mid)%nat
             = Some (if isCharVisible
                          (nonFormattingCount pre + 1 + nonFormattingCount mid)
                          total options
                     then d else m))
  /\ (forall input callerOptions,
        normalizePhone input = phone ->
        normalizeOptions callerOptions = options ->
        NormalizedOptions.preserveFormat options = true ->
        bypassTaken phone callerOptions = false ->
        maskPhone input callerOptions = formatWalk options total 0 phone).
Proof.
  intros Hcm Hd Hf phone total.
  assert (Htotal : len (digitsOf phone) = total).
  { unfold phone, total. rewrite len_digitsOf_app. f_equal.
    unfold digitsOf. simpl. by rewrite Hd. }
  assert (Hwalk : maskWithFormat phone options = formatWalk options total 0 phone).
  { rewrite <- Htotal. by apply maskWithFormat_walk. }
  split; [done|]. split; [|split].
  - rewrite Hwalk. unfold phone. rewrite formatWalk_app. simpl. by rewrite Hf.
  - intros m Hm. split.
    + rewrite Hwalk. unfold phone.
      by rewrite (formatWalk_lookup options total m pre post c Hm Hf 0).
    + intros mid rest d -> Hfd. rewrite Hwalk. unfold phone.
      assert (Hlen : (List.length pre + 1 + List.length mid)%nat
                     = List.length (pre ++ c :: mid)).
      { rewrite length_app. simpl. lia. }
      assert (Hcount : nonFormattingCount (pre ++ c :: mid)
                       = nonFormattingCount pre + 1 + nonFormattingCount mid).
      { rewrite nonFormattingCount_app, nonFormattingCount_cons, Hf. lia. }
      replace (pre ++ c :: mid ++ d :: rest) with ((pre ++ c :: mid) ++ d :: rest)
        by by rewrite <- app_assoc.
      by rewrite Hlen,
           (formatWalk_lookup options total m (pre ++ c :: mid) rest d Hm Hfd 0),
           Hcount.
  - intros input callerOptions Hin Hopts Hpf Hby.
    rewrite maskPhone_dispatch. cbv zeta. rewrite Hin, Hopts, Hby, Hpf.
    unfold phone at 1. destruct pre; simpl isEmptyString; exact Hwalk.
Qed.

(** In ["12a34567"], under the default showLast of 4, the letter is
    replaced by ['*'] and the digit 3 after it is shown: it is tested at
    index 3 of 7, where without the letter it would be at index 2 and
    masked. *)
Lemma maskWithFormat_non_digit_witness :
  isDigit 97%N = false
  /\ isFormattingChar 97%N = false
  /\ maskWithFormat (js "12a34567") (normalizeOptions withFormat) !! 2%nat
     = Some 42%N
  /\ maskWithFormat (js "12a34567") (normalizeOptions withFormat) !! 3%nat
     = Some 51%N
  /\ isCharVisible 2 7 (normalizeOptions withFormat) = false.
Proof.
  split; [reflexivity|]. split; [reflexivity|].
  destruct (maskWithFormat_non_digit (normalizeOptions withFormat)
              (js "12") (js "34567") 97%N eq_refl eq_refl eq_refl)
    as (_ & _ & Hat & _).
  destruct (Hat 42%N eq_refl) as [Hc Hlater].
  split; [exact Hc|]. split; [|reflexivity].
  exact (Hlater [] (js "4567") 51%N eq_refl eq_refl).
Defined.

(** The scenarios behind C4, C9 and C10, end to end. *)

Example object_null_phone_default :
  maskPhone (JsObject (Some JsNull)) None = js "null"
  /\ maskPhone (JsObject (Some JsUndefined)) None = js "undefined".
Proof. split; reflexivity. Qed.

(** Options that switch the bypass off mask the string ["null"] like any
    other: it has no digit, so digit-only mode leaves nothing. *)
Example object_null_phone_masked :
  maskPhone (JsObject (Some JsUndefined)) (withRanges [(0, 3)] None) = []
  /\ maskPhone (JsString (js "undefined")) (withRanges [(0, 3)] None) = [].
Proof. split; reflexivity. Qed.

Example plus_takes_a_showFirst_slot :
  maskPhone (JsString (js "+1234567890")) (withShow (Some 2) None)
  = js "+1*****7890".
Proof. reflexivity. Qed.

Example letter_is_counted_and_masked :
  maskPhone (JsString (js "a1234567890")) withFormat = js "******67890".
Proof. reflexivity. Qed.

Example letter_shifts_the_window :
  maskPhone (JsString (js "12a34567")) withFormat = js "***34567"
  /\ maskPhone (JsString (js "1234567")) withFormat = js "***4567".
Proof. split; reflexivity. Qed.

(** * Further properties of the code *)

(** ** Options: only the resolved form matters *)

Lemma optChain_customMask (options : option MaskOptions.t) :
  optChain options MaskOptions.customMask
  = NormalizedOptions.customMask (normalizeOptions options).
Proof. by destruct options. Qed.

Lemma optChain_visibleRanges (options : option MaskOptions.t) :
  optChain options MaskOptions.visibleRanges
  = NormalizedOptions.visibleRanges (normalizeOptions options).
Proof. by destruct options. Qed.

Lemma maskPhone_resolved (phone : JsValue) (options : option MaskOptions.t) :
  maskPhone phone options
  = maskPhoneResolved (normalizePhone phone) (normalizeOptions options).
Proof.
  unfold maskPhone, maskPhoneResolved.
  by rewrite optChain_customMask, optChain_visibleRanges.
Qed.

(** X1: [maskPhone] depends on the options object only through its
    resolved form: two options objects that [normalizeOptions] maps to the
    same record give the same output on every input (the bypass test on
    the caller's customMask and visibleRanges included). *)
Theorem maskPhone_options_resolved
    (phone : JsValue) (o1 o2 : option MaskOptions.t) :
  normalizeOptions o1 = normalizeOptions o2 ->
  maskPhone phone o1 = maskPhone phone o2.
Proof. intros H. by rewrite !maskPhone_resolved, H. Qed.

Lemma maskPhone_options_resolved_witness :
  maskPhone (JsString (js "+62 812 3456 7890"))
            (Some (MaskOptions.mk None None None (Some 3) None None None None))
  = maskPhone (JsString (js "+62 812 3456 7890"))
              (Some (MaskOptions.mk (Some (js "*")) (Some 3) (Some 4) (Some 9)
                                    (Some 0) None (Some false) None)).
Proof.
  apply (maskPhone_options_resolved (JsString (js "+62 812 3456 7890"))).
  reflexivity.
Defined.

(** X2: showStart and showEnd are pure aliases.  When showFirst and
    showLast are absent, passing the counts as showStart/showEnd gives the
    output of passing them as showFirst/showLast; when showFirst and
    showLast are present, showStart and showEnd are ignored. *)
Theorem maskPhone_aliases
    (phone : JsValue) (mc : option jsstring) (a b : option Z)
    (vr : option (list Range)) (pf : option bool) (cm : option CustomMask) :
  maskPhone phone (Some (MaskOptions.mk mc None None a b vr pf cm))
  = maskPhone phone (Some (MaskOptions.mk mc a b None None vr pf cm))
  /\ forall first last,
       maskPhone phone (Some (MaskOptions.mk mc (Some first) (Some last) a b vr pf cm))
       = maskPhone phone
           (Some (MaskOptions.mk mc (Some first) (Some last) None None vr pf cm)).
Proof.
  split; [|intros first last]; rewrite !maskPhone_resolved; f_equal.
  unfold normalizeOptions; simpl. by destruct a, b.
Qed.

(** X3: calling [maskPhone] without an options argument is the same as
    passing the empty object: the two branches of [normalizeOptions] agree
    and the bypass test sees no customMask and no visibleRanges in either
    case. *)
Theorem maskPhone_no_options (phone : JsValue) :
  maskPhone phone None = maskPhone phone (Some MaskOptions.empty).
Proof. by rewrite !maskPhone_resolved. Qed.

(** ** Trimming and stripping *)

Section Trimming.

Lemma isWhiteSpace_spec (c : char) :
  isWhiteSpace c = true
  <-> ((9 <= c <= 13) \/ c = 32 \/ c = 160 \/ c = 5760 \/ (8192 <= c <= 8202)
       \/ c = 8232 \/ c = 8233 \/ c = 8239 \/ c = 8287 \/ c = 12288
       \/ c = 65279)%N.
Proof.
  unfold isWhiteSpace.
  rewrite !orb_true_iff, !andb_true_iff, !N.leb_le, !N.eqb_eq. tauto.
Qed.

Lemma whitespace_not_kept (c : char) :
  isWhiteSpace c = true -> keptChar c = false.
Proof.
  intros Hws%isWhiteSpace_spec. unfold keptChar, isDigit, PLUS.
  apply orb_false_iff. split.
  - apply andb_false_iff. rewrite !N.leb_gt. lia.
  - apply N.eqb_neq. lia.
Qed.

Lemma kept_not_formatting_or_plus (c : char) :
  isDigit c = true -> isFormattingChar c = false.
Proof.
  intros Hd. unfold isFormattingChar.
  destruct (isWhiteSpace c) eqn:Hws.
  { apply whitespace_not_kept in Hws. unfold keptChar in Hws. by rewrite Hd in Hws. }
  rewrite (digit_not_plus c Hd). revert Hd. unfold isDigit.
  intros [H1 H2]%andb_prop. apply N.leb_le in H1.
  destruct (N.eqb_spec c 45), (N.eqb_spec c 40), (N.eqb_spec c 41),
           (N.eqb_spec c 46); simpl; try done; lia.
Qed.

Lemma trimStart_split (s : jsstring) :
  exists ws, s = ws ++ trimStart s /\ Forall (fun c => isWhiteSpace c = true) ws.
Proof.
  induction s as [|c s (ws & Hs & Hws)]; simpl.
  - by exists [].
  - destruct (isWhiteSpace c) eqn:Hc.
    + exists (c :: ws). split; [simpl; congruence | by constructor].
    + by exists [].
Qed.

Lemma trimStart_clean (s : jsstring) (c : char) :
  head (trimStart s) = Some c -> isWhiteSpace c = false.
Proof.
  induction s as [|a s IH]; simpl; [done|].
  destruct (isWhiteSpace a) eqn:Ha; [done|]. simpl. congruence.
Qed.

Lemma trimStart_fixed (s : jsstring) :
  (forall c, head s = Some c -> isWhiteSpace c = false) -> trimStart s = s.
Proof. destruct s as [|a s]; simpl; [done|]. intros H. by rewrite (H a). Qed.

Lemma trimStart_idem (s : jsstring) : trimStart (trimStart s) = trimStart s.
Proof. apply trimStart_fixed, trimStart_clean. Qed.

Lemma trimEnd_split (s : jsstring) :
  exists ws, s = trimEnd s ++ ws /\ Forall (fun c => isWhiteSpace c = true) ws.
Proof.
  destruct (trimStart_split (rev s)) as (ws & Hs & Hws).
  exists (rev ws). split; [|by apply Forall_rev].
  unfold trimEnd. rewrite <- rev_app_distr, <- Hs. by rewrite rev_involutive.
Qed.

Lemma trimEnd_idem (s : jsstring) : trimEnd (trimEnd s) = trimEnd s.
Proof. unfold trimEnd. by rewrite rev_involutive, trimStart_idem. Qed.

Lemma trimEnd_head (s : jsstring) (c : char) :
  head (trimEnd s) = Some c -> head s = Some c.
Proof.
  destruct (trimEnd_split s) as (ws & Hs & _). intros H.
  rewrite Hs. by destruct (trimEnd s).
Qed.

Lemma trim_head_clean (s : jsstring) (c : char) :
  head (trim s) = Some c -> isWhiteSpace c = false.
Proof. intros H%trimEnd_head. by apply trimStart_clean in H. Qed.

Lemma trim_last_clean (s : jsstring) (c : char) :
  last (trim s) = Some c -> isWhiteSpace c = false.
Proof.
  unfold trim, trimEnd. rewrite rev_alt. change (rev_append ?l []) with (reverse l).
  rewrite last_reverse. apply trimStart_clean.
Qed.

Lemma trim_idem (s : jsstring) : trim (trim s) = trim s.
Proof.
  unfold trim at 1. rewrite (trimStart_fixed (trim s)) by apply trim_head_clean.
  apply trimEnd_idem.
Qed.

Lemma trim_split (s : jsstring) :
  exists l r, s = l ++ trim s ++ r
              /\ Forall (fun c => isWhiteSpace c = true) l
              /\ Forall (fun c => isWhiteSpace c = true) r.
Proof.
  destruct (trimStart_split s) as (l & Hl & HFl).
  destruct (trimEnd_split (trimStart s)) as (r & Hr & HFr).
  exists l, r. split; [|done]. unfold trim. by rewrite <- Hr.
Qed.

Lemma stripFormatting_app (s t : jsstring) :
  stripFormatting (s ++ t) = stripFormatting s ++ stripFormatting t.
Proof. apply List.filter_app. Qed.

Lemma stripFormatting_whitespace (ws : jsstring) :
  Forall (fun c => isWhiteSpace c = true) ws -> stripFormatting ws = [].
Proof.
  unfold stripFormatting. induction 1 as [|c ws Hc _ IH]; simpl; [done|].
  apply whitespace_not_kept in Hc. unfold keptChar in Hc. by rewrite Hc.
Qed.

Lemma stripFormatting_trim (s : jsstring) :
  stripFormatting (trim s) = stripFormatting s.
Proof.
  destruct (trim_split s) as (l & r & Hs & Hl & Hr).
  rewrite Hs at 2. rewrite !stripFormatting_app.
  rewrite (stripFormatting_whitespace l Hl), (stripFormatting_whitespace r Hr).
  by rewrite app_nil_r.
Qed.

End Trimming.

(** X4: [stripFormatting] is idempotent, its result holds only decimal
    digits and ['+'], it never lengthens the string, and it leaves a
    string alone exactly when the string already holds only such
    characters. *)
Theorem stripFormatting_idempotent (phone : jsstring) :
  stripFormatting (stripFormatting phone) = stripFormatting phone
  /\ Forall (fun c => keptChar c = true) (stripFormatting phone)
  /\ len (stripFormatting phone) <= len phone
  /\ (stripFormatting phone = phone <-> Forall (fun c => keptChar c = true) phone).
Proof.
  assert (Hkept : Forall (fun c => keptChar c = true) (stripFormatting phone))
    by apply stripFormatting_kept.
  assert (Hfix : forall s, Forall (fun c => keptChar c = true) s ->
                           stripFormatting s = s).
  { unfold stripFormatting. induction 1 as [|c s Hc _ IH]; simpl; [done|].
    unfold keptChar in Hc. by rewrite Hc, IH. }
  split; [by apply Hfix|]. split; [done|]. split.
  - unfold len, arrayLength, stripFormatting.
    pose proof (List.filter_length_le (fun c => isDigit c || (c =? PLUS)%N) phone).
    lia.
  - split; [by intros <- | apply Hfix].
Qed.

(** X5: trimming does not change what [stripFormatting] keeps, so the
    stripped string, its length (the quantity of the bypass test) and the
    digit-only masking are the same for a string and for its trimmed
    form. *)
Theorem stripFormatting_ignores_trim (s : jsstring) (options : NormalizedOptions.t) :
  stripFormatting (normalizePhone (JsString s)) = stripFormatting s
  /\ maskWithoutFormat (trim s) options = maskWithoutFormat s options.
Proof.
  split; [apply stripFormatting_trim|].
  unfold maskWithoutFormat. by rewrite stripFormatting_trim.
Qed.

(** X6: [normalizePhone] is idempotent: normalizing the string it
    returned gives that string again, so [maskPhone] gives the same output
    on a value and on its normalized string, under any options. *)
Theorem normalizePhone_idempotent (phone : JsValue) (options : option MaskOptions.t) :
  normalizePhone (JsString (normalizePhone phone)) = normalizePhone phone
  /\ maskPhone (JsString (normalizePhone phone)) options = maskPhone phone options.
Proof.
  assert (H : normalizePhone (JsString (normalizePhone phone)) = normalizePhone phone).
  { destruct phone; try done; simpl; apply trim_idem. }
  split; [done|]. by apply maskPhone_normalized.
Qed.

(** X7: on a string input [normalizePhone] removes whitespace at the two
    ends and nothing else: the input is the result between two runs of
    whitespace, and the result neither starts nor ends with a whitespace
    character. *)
Theorem normalizePhone_string_trimmed (s : jsstring) :
  (exists l r, s = l ++ normalizePhone (JsString s) ++ r
               /\ Forall (fun c => isWhiteSpace c = true) l
               /\ Forall (fun c => isWhiteSpace c = true) r)
  /\ (forall c, head (normalizePhone (JsString s)) = Some c -> isWhiteSpace c = false)
  /\ (forall c, last (normalizePhone (JsString s)) = Some c -> isWhiteSpace c = false).
Proof.
  split; [apply trim_split|]. split; intros c; [apply trim_head_clean | apply trim_last_clean].
Qed.

(** ** The visibility predicate: order and monotonicity *)

Section VisibilityFacts.

Variables (index length : Z) (options : NormalizedOptions.t).

Lemma isCharVisible_counts :
  NormalizedOptions.visibleRanges options = None
  \/ NormalizedOptions.visibleRanges options = Some [] ->
  isCharVisible index length options = true
  <-> (NormalizedOptions.showFirst options > 0
       /\ index < NormalizedOptions.showFirst options)
      \/ (NormalizedOptions.showLast options > 0
          /\ index >= length - NormalizedOptions.showLast options).
Proof.
  intros Hvr. unfold isCharVisible.
  destruct Hvr as [-> | ->]; apply byCounts_spec.
Qed.

Lemma isCharVisible_ranges (r : Range) (rs : list Range) :
  NormalizedOptions.visibleRanges options = Some (r :: rs) ->
  isCharVisible index length options = existsb (inRange index) (r :: rs).
Proof. intros Hvr. unfold isCharVisible. by rewrite Hvr. Qed.

(** Under the bypass condition every position of the string is visible. *)
Lemma isCharVisible_within_counts :
  NormalizedOptions.visibleRanges options = None
  \/ NormalizedOptions.visibleRanges options = Some [] ->
  0 <= index < length ->
  length <= NormalizedOptions.showFirst options + NormalizedOptions.showLast options ->
  isCharVisible index length options = true.
Proof. intros Hvr Hi Hlen. apply isCharVisible_counts; [done|]. lia. Qed.

End VisibilityFacts.

(** X8: the predicate is monotone in the two counts: raising showFirst or
    showLast never hides a position that was visible (with non-empty
    visibleRanges the counts are not looked at, so nothing changes). *)
Theorem isCharVisible_monotone
    (index length first last first' last' : Z) (options : NormalizedOptions.t) :
  first <= first' ->
  last <= last' ->
  isCharVisible index length (setShowFirst first (setShowLast last options)) = true ->
  isCharVisible index length (setShowFirst first' (setShowLast last' options)) = true.
Proof.
  intros Hf Hl.
  destruct (NormalizedOptions.visibleRanges options) as [[|r rs]|] eqn:Hvr.
  - rewrite !isCharVisible_counts by (right; exact Hvr). simpl. lia.
  - by rewrite !(isCharVisible_ranges _ _ _ r rs) by exact Hvr.
  - rewrite !isCharVisible_counts by (left; exact Hvr). simpl. lia.
Qed.

Lemma isCharVisible_monotone_witness :
  isCharVisible 2 10 (setShowFirst 5 (setShowLast 4 (normalizeOptions None))) = true.
Proof.
  apply (isCharVisible_monotone 2 10 3 4 5 4 (normalizeOptions None));
    [lia | lia | reflexivity].
Defined.

(** X9: with visibleRanges the predicate depends only on which ranges
    are listed, not on their order or on repetitions: two lists with the
    same members give the same answer at every index. *)
Theorem isCharVisible_ranges_as_set
    (index length : Z) (options : NormalizedOptions.t) (rs rs' : list Range) :
  (forall r, In r rs <-> In r rs') ->
  isCharVisible index length (setVisibleRanges (Some rs) options)
  = isCharVisible index length (setVisibleRanges (Some rs') options).
Proof.
  intros Hsame.
  destruct rs as [|r rs], rs' as [|r' rs'].
  - done.
  - exfalso. apply (Hsame r'). by left.
  - exfalso. apply (Hsame r). by left.
  - rewrite (isCharVisible_ranges _ _ _ r rs), (isCharVisible_ranges _ _ _ r' rs')
      by done.
    apply eq_true_iff_eq. rewrite !existsb_exists.
    split; intros (x & Hin & Hx); exists x; split; try done; by apply Hsame.
Qed.

Lemma isCharVisible_ranges_as_set_witness :
  isCharVisible 3 10 (setVisibleRanges (Some [(0, 1); (3, 4)]) (normalizeOptions None))
  = isCharVisible 3 10
      (setVisibleRanges (Some [(3, 4); (0, 1); (3, 4)]) (normalizeOptions None)).
Proof.
  apply (isCharVisible_ranges_as_set 3 10 (normalizeOptions None)).
  intros r. simpl. tauto.
Defined.

(** ** When nothing has to be masked *)

Section NothingToMask.

Lemma join_units (s : jsstring) : join ((fun c => [c]) <$> s) = s.
Proof. unfold join. induction s as [|c s IH]; simpl; [done|]. by f_equal. Qed.

Lemma join_imap_units (g : nat -> char -> jsstring) (s : jsstring) :
  (forall i c, s !! i = Some c -> g i c = [c]) -> join (imap g s) = s.
Proof.
  intros Hg. rewrite (imap_ext g (fun _ c => [c])) by done.
  change (fun (_ : nat) (c : char) => [c]) with (@const _ nat (fun c : char => [c])).
  rewrite imap_const. apply join_units.
Qed.

Lemma length_maskWithFormat_map (phone : jsstring) (totalDigits : Z)
      (options : NormalizedOptions.t) :
  forall chars charIndex digitIndex,
    length (maskWithFormat_map phone totalDigits options charIndex digitIndex chars)
    = length chars.
Proof.
  induction chars as [|c chars IH]; intros charIndex digitIndex; simpl; [done|].
  destruct (NormalizedOptions.customMask options); simpl; [by rewrite IH|].
  destruct (isFormattingChar c); simpl; by rewrite IH.
Qed.

Lemma formatting_not_digit (c : char) :
  isFormattingChar c = true -> isDigit c = false.
Proof.
  intros Hf. destruct (isDigit c) eqn:Hd; [|done].
  apply kept_not_formatting_or_plus in Hd. congruence.
Qed.

(** Among digits and separators the counter is the number of digits. *)
Lemma nonFormattingCount_digits (s : jsstring) :
  Forall (fun c => isDigit c = true \/ isFormattingChar c = true) s ->
  nonFormattingCount s = len (digitsOf s).
Proof.
  induction 1 as [|c s Hc _ IH]; [done|].
  rewrite nonFormattingCount_cons.
  change (c :: s) with ([c] ++ s). rewrite len_digitsOf_app, <- IH.
  unfold len, arrayLength, digitsOf. simpl.
  destruct Hc as [Hd | Hf].
  - by rewrite Hd, (kept_not_formatting_or_plus c Hd).
  - by rewrite Hf, (formatting_not_digit c Hf).
Qed.

Lemma maskWithoutFormat_unmasked (phone : jsstring) (options : NormalizedOptions.t) :
  NormalizedOptions.customMask options = None ->
  NormalizedOptions.visibleRanges options = None
  \/ NormalizedOptions.visibleRanges options = Some [] ->
  len (stripFormatting phone)
    <= NormalizedOptions.showFirst options + NormalizedOptions.showLast options ->
  maskWithoutFormat phone options = stripFormatting phone.
Proof.
  intros Hcm Hvr Hlen. unfold maskWithoutFormat, maskWithoutFormat_map.
  apply join_imap_units. intros i c Hi. rewrite Hcm.
  destruct (c =? PLUS)%N; [done|].
  rewrite isCharVisible_within_counts; try done.
  apply lookup_lt_Some in Hi. unfold len, arrayLength. lia.
Qed.

End NothingToMask.

(** X10: when the bypass condition holds (stripped length at most
    showFirst + showLast, no customMask, visibleRanges absent or empty),
    the digit-only masker would mask nothing: it returns the stripped
    string.  The bypass therefore differs from masking only in keeping the
    separators. *)
Theorem maskWithoutFormat_nothing_to_mask
    (phone : jsstring) (options : NormalizedOptions.t) :
  NormalizedOptions.customMask options = None ->
  NormalizedOptions.visibleRanges options = None
  \/ NormalizedOptions.visibleRanges options = Some [] ->
  len (stripFormatting phone)
    <= NormalizedOptions.showFirst options + NormalizedOptions.showLast options ->
  maskWithoutFormat phone options = stripFormatting phone.
Proof. apply maskWithoutFormat_unmasked. Qed.

Lemma maskWithoutFormat_nothing_to_mask_witness :
  maskWithoutFormat (js "12-3") (normalizeOptions None) = js "123".
Proof.
  apply (maskWithoutFormat_nothing_to_mask (js "12-3") (normalizeOptions None));
    [reflexivity | left; reflexivity | by vm_compute].
Defined.

(** X11: the same for the format-preserving masker on a string made of
    decimal digits and formatting characters: if the number of digits is at
    most showFirst + showLast it returns the string unchanged. *)
Theorem maskWithFormat_nothing_to_mask
    (phone : jsstring) (options : NormalizedOptions.t) :
  NormalizedOptions.customMask options = None ->
  NormalizedOptions.visibleRanges options = None
  \/ NormalizedOptions.visibleRanges options = Some [] ->
  Forall (fun c => isDigit c = true \/ isFormattingChar c = true) phone ->
  len (digitsOf phone)
    <= NormalizedOptions.showFirst options + NormalizedOptions.showLast options ->
  maskWithFormat phone options = phone.
Proof.
  intros Hcm Hvr Hchars Hlen.
  change (maskWithFormat phone options) with (join (maskWithFormat_pieces phone options)).
  rewrite <- (join_units phone) at 2. f_equal.
  apply list_eq. intros k. rewrite list_lookup_fmap.
  destruct (phone !! k) as [c|] eqn:Hk; simpl.
  - apply list_elem_of_split_length in Hk as (pre & post & Hphone & Hpre).
    rewrite Hphone, Hpre, (maskWithFormat_pieces_lookup options Hcm).
    rewrite list_lookup_middle by done. simpl.
    destruct (isFormattingChar c) eqn:Hf; [done|].
    rewrite isCharVisible_within_counts; try done; [|by rewrite <- Hphone].
    rewrite <- Hphone. rewrite Hphone in Hchars.
    apply Forall_app in Hchars as [Hpre_ok Hrest].
    rewrite (nonFormattingCount_digits pre Hpre_ok).
    rewrite Hphone, len_digitsOf_app.
    apply Forall_cons in Hrest as [[Hd | Hd] _]; [|congruence].
    pose proof (len_nonneg (digitsOf pre)).
    change (c :: post) with ([c] ++ post). rewrite len_digitsOf_app.
    pose proof (len_nonneg (digitsOf post)).
    assert (Hone : len (digitsOf [c]) = 1).
    { unfold digitsOf. simpl. by rewrite Hd. }
    lia.
  - apply lookup_ge_None in Hk. rewrite (proj2 (lookup_ge_None phone k) Hk). simpl.
    apply lookup_ge_None.
    unfold maskWithFormat_pieces. by rewrite length_maskWithFormat_map.
Qed.

Lemma maskWithFormat_nothing_to_mask_witness :
  maskWithFormat (js "(12) 3-4") (normalizeOptions withFormat) = js "(12) 3-4".
Proof.
  apply (maskWithFormat_nothing_to_mask (js "(12) 3-4") (normalizeOptions withFormat));
    [reflexivity | left; reflexivity | | by vm_compute].
  repeat constructor; (by left) || (by right).
Defined.

(** ** The shape of a masked number *)

Section Window.

Lemma join_app (a b : list jsstring) : join (a ++ b) = join a ++ join b.
Proof. apply concat_app. Qed.

Lemma join_imap_masked (m : jsstring) (s : jsstring) :
  forall g : nat -> char -> jsstring,
    (forall i c, s !! i = Some c -> g i c = m) ->
    join (imap g s) = maskRun (length s) m.
Proof.
  induction s as [|c s IH]; intros g Hg; [done|].
  simpl. unfold maskRun, join in *. simpl.
  rewrite (Hg 0%nat c eq_refl). f_equal.
  apply IH. intros i x Hi. by apply (Hg (S i)).
Qed.

Lemma kept_not_whitespace (c : char) : keptChar c = true -> isWhiteSpace c = false.
Proof.
  intros Hk. destruct (isWhiteSpace c) eqn:Hws; [|done].
  apply whitespace_not_kept in Hws. congruence.
Qed.

Lemma trimStart_kept (s : jsstring) :
  Forall (fun c => keptChar c = true) s -> trimStart s = s.
Proof. destruct 1 as [|c s Hc _]; simpl; [done|]. by rewrite kept_not_whitespace. Qed.

Lemma trim_kept (s : jsstring) :
  Forall (fun c => keptChar c = true) s -> trim s = s.
Proof.
  intros Hs. unfold trim, trimEnd. rewrite (trimStart_kept s Hs).
  rewrite trimStart_kept by by apply Forall_rev. apply rev_involutive.
Qed.

Lemma stripFormatting_fixed (s : jsstring) :
  Forall (fun c => keptChar c = true) s -> stripFormatting s = s.
Proof.
  unfold stripFormatting. induction 1 as [|c s Hc _ IH]; simpl; [done|].
  unfold keptChar in Hc. by rewrite Hc, IH.
Qed.

Lemma digit_kept (c : char) : isDigit c = true -> keptChar c = true.
Proof. unfold keptChar. by intros ->. Qed.

Variables (s1 s2 s3 m : jsstring).
Hypothesis Hs1 : Forall (fun c => keptChar c = true) s1.
Hypothesis Hs2 : Forall (fun c => isDigit c = true) s2.
Hypothesis Hs3 : Forall (fun c => keptChar c = true) s3.

Lemma window_kept : Forall (fun c => keptChar c = true) (s1 ++ s2 ++ s3).
Proof.
  repeat apply Forall_app_2; try done.
  eapply Forall_impl; [exact Hs2|]. apply digit_kept.
Qed.

Lemma maskWithoutFormat_window :
  maskWithoutFormat (s1 ++ s2 ++ s3) (countsOnly m (len s1) (len s3))
  = s1 ++ maskRun (length s2) m ++ s3.
Proof.
  unfold maskWithoutFormat. rewrite (stripFormatting_fixed _ window_kept).
  unfold maskWithoutFormat_map. simpl NormalizedOptions.customMask. cbv iota.
  set (o := countsOnly m (len s1) (len s3)).
  assert (Hn : len (s1 ++ s2 ++ s3) = len s1 + len s2 + len s3).
  { unfold len, arrayLength. rewrite !length_app. lia. }
  rewrite Hn.
  assert (Hvr : NormalizedOptions.visibleRanges o = None
                \/ NormalizedOptions.visibleRanges o = Some []) by by left.
  rewrite !imap_app, !join_app. f_equal; [|f_equal].
  - apply join_imap_units. intros i c Hi.
    destruct (c =? PLUS)%N; [done|].
    apply lookup_lt_Some in Hi.
    rewrite (proj2 (isCharVisible_counts _ _ o Hvr)); [done|].
    left. simpl. unfold len, arrayLength. lia.
  - apply join_imap_masked. intros i c Hi.
    assert (Hd : isDigit c = true).
    { eapply Forall_lookup_1 in Hs2; [exact Hs2 | exact Hi]. }
    rewrite (digit_not_plus c Hd).
    apply lookup_lt_Some in Hi.
    destruct (isCharVisible _ _ o) eqn:Hv; [|done].
    apply isCharVisible_counts in Hv; [|done]. simpl in Hv.
    unfold len, arrayLength in Hv. lia.
  - apply join_imap_units. intros i c Hi.
    destruct (c =? PLUS)%N; [done|].
    apply lookup_lt_Some in Hi.
    rewrite (proj2 (isCharVisible_counts _ _ o Hvr)); [done|].
    right. simpl. unfold len, arrayLength. lia.
Qed.

End Window.

(** X12: the shape of the default masking.  For a string [s1 ++ s2 ++ s3]
    of digits and ['+'] whose middle part [s2] holds digits only,
    [maskPhone] with showFirst = |s1| and showLast = |s3| returns [s1],
    then maskChar repeated |s2| times, then [s3] (the string itself when
    [s2] is empty, by the bypass). *)
Theorem maskPhone_window (s1 s2 s3 m : jsstring) :
  Forall (fun c => keptChar c = true) s1 ->
  Forall (fun c => isDigit c = true) s2 ->
  Forall (fun c => keptChar c = true) s3 ->
  maskPhone (JsString (s1 ++ s2 ++ s3))
            (Some (MaskOptions.mk (Some m) (Some (len s1)) (Some (len s3))
                                  None None None None None))
  = s1 ++ maskRun (length s2) m ++ s3.
Proof.
  intros H1 H2 H3.
  pose proof (window_kept s1 s2 s3 H1 H2 H3) as Hk.
  rewrite maskPhone_resolved. simpl normalizePhone. rewrite (trim_kept _ Hk).
  change (normalizeOptions _) with (countsOnly m (len s1) (len s3)).
  unfold maskPhoneResolved.
  destruct (isEmptyString (s1 ++ s2 ++ s3)) eqn:He.
  { destruct s1, s2, s3; simpl in He; try done. }
  simpl NormalizedOptions.customMask. simpl NormalizedOptions.visibleRanges.
  simpl NormalizedOptions.preserveFormat. simpl truthy. simpl negb. cbv iota.
  rewrite (stripFormatting_fixed _ Hk). simpl andb.
  destruct (Z.leb_spec (len (s1 ++ s2 ++ s3)) (len s1 + len s3)) as [Hle|Hgt].
  - assert (s2 = []) as ->.
    { unfold len, arrayLength in Hle. rewrite !length_app in Hle.
      destruct s2; [done | simpl in Hle; lia]. }
    done.
  - by apply maskWithoutFormat_window.
Qed.

Lemma maskPhone_window_witness :
  maskPhone (JsString (js "+62" ++ js "81234" ++ js "5678"))
            (Some (MaskOptions.mk (Some (js "#")) (Some (len (js "+62")))
                                  (Some (len (js "5678"))) None None None None None))
  = js "+62#####5678".
Proof.
  apply (maskPhone_window (js "+62") (js "81234") (js "5678") (js "#"));
    repeat constructor.
Defined.

(** ** What the output reveals *)

(** X13: masked characters do not influence the output of the digit-only
    masker.  If two inputs strip to strings of the same length that agree
    at every position except positions that are not visible and hold no
    ['+'] in either, the two outputs are equal. *)
Theorem maskWithoutFormat_hides_masked
    (phone1 phone2 : jsstring) (options : NormalizedOptions.t) :
  NormalizedOptions.customMask options = None ->
  length (stripFormatting phone1) = length (stripFormatting phone2) ->
  (forall i c1 c2,
      stripFormatting phone1 !! i = Some c1 ->
      stripFormatting phone2 !! i = Some c2 ->
      c1 = c2
      \/ (c1 <> PLUS /\ c2 <> PLUS
          /\ isCharVisible (Z.of_nat i) (len (stripFormatting phone1)) options = false)) ->
  maskWithoutFormat phone1 options = maskWithoutFormat phone2 options.
Proof.
  intros Hcm Hlen Hagree. unfold maskWithoutFormat, maskWithoutFormat_map.
  f_equal. apply list_eq. intros i. rewrite !list_lookup_imap, Hcm.
  assert (Hn : len (stripFormatting phone2) = len (stripFormatting phone1)).
  { unfold len, arrayLength. by rewrite Hlen. }
  rewrite Hn.
  destruct (decide (i < length (stripFormatting phone1))%nat) as [Hlt|Hge].
  - destruct (lookup_lt_is_Some_2 (stripFormatting phone1) i Hlt) as [c1 H1].
    destruct (lookup_lt_is_Some_2 (stripFormatting phone2) i ltac:(lia)) as [c2 H2].
    rewrite H1, H2. simpl.
    destruct (Hagree i c1 c2 H1 H2) as [-> | (Hp1 & Hp2 & Hv)]; [done|].
    apply N.eqb_neq in Hp1, Hp2. by rewrite Hp1, Hp2, Hv.
  - rewrite !lookup_ge_None_2 by lia. done.
Qed.

Lemma maskWithoutFormat_hides_masked_witness :
  maskWithoutFormat (js "+1 (555) 123-4567") (normalizeOptions None)
  = maskWithoutFormat (js "+9 (000) 000-4567") (normalizeOptions None).
Proof.
  apply (maskWithoutFormat_hides_masked
           (js "+1 (555) 123-4567") (js "+9 (000) 000-4567") (normalizeOptions None));
    [reflexivity | reflexivity |].
  intros i c1 c2.
  do 12 (destruct i as [|i];
         [intros [= <-] [= <-]; (by left) || (by right; vm_compute) |]).
  done.
Defined.

Section Shape.

Variables (options : NormalizedOptions.t) (m : char).
Hypothesis Hnocustom : NormalizedOptions.customMask options = None.
Hypothesis Hmask : NormalizedOptions.maskChar options = [m].

Lemma maskWithFormat_map_shape (phone : jsstring) (totalDigits : Z) :
  forall chars charIndex digitIndex,
    Forall2 (fun c c' => c' = c \/ (isFormattingChar c = false /\ c' = m))
            chars
            (join (maskWithFormat_map phone totalDigits options charIndex digitIndex chars)).
Proof.
  induction chars as [|c chars IH]; intros charIndex digitIndex; simpl;
    [constructor|].
  rewrite Hnocustom. destruct (isFormattingChar c) eqn:Hf.
  - unfold join. simpl. constructor; [by left | apply IH].
  - unfold join. simpl. destruct (isCharVisible _ _ _); simpl.
    + constructor; [by left | apply IH].
    + rewrite Hmask. simpl. constructor; [by right | apply IH].
Qed.

Lemma join_imap_shape (R : char -> char -> Prop) (s : jsstring) :
  forall g : nat -> char -> jsstring,
    (forall i c, s !! i = Some c -> exists c', g i c = [c'] /\ R c c') ->
    Forall2 R s (join (imap g s)).
Proof.
  induction s as [|c s IH]; intros g Hg; simpl; [constructor|].
  destruct (Hg 0%nat c eq_refl) as (c' & Hc' & HR).
  unfold join. simpl. rewrite Hc'. simpl. constructor; [done|].
  apply IH. intros i x Hi. by apply (Hg (S i)).
Qed.

End Shape.

(** X14: with a one-character maskChar and no customMask the two maskers
    substitute character for character.  Each output character is the
    input character at that position or maskChar; a formatting character
    (format-preserving mode) and a ['+'] (digit-only mode, over the
    stripped string) is never replaced. *)
Theorem maskers_substitute_in_place
    (phone : jsstring) (options : NormalizedOptions.t) (m : char) :
  NormalizedOptions.customMask options = None ->
  NormalizedOptions.maskChar options = [m] ->
  Forall2 (fun c c' => c' = c \/ (isFormattingChar c = false /\ c' = m))
          phone (maskWithFormat phone options)
  /\ Forall2 (fun c c' => c' = c \/ (c <> PLUS /\ c' = m))
             (stripFormatting phone) (maskWithoutFormat phone options).
Proof.
  intros Hcm Hm. split.
  - by apply maskWithFormat_map_shape.
  - unfold maskWithoutFormat, maskWithoutFormat_map.
    apply join_imap_shape. intros i c _. rewrite Hcm, Hm.
    destruct (N.eqb_spec c PLUS) as [->|Hne]; [exists PLUS; split; [done | by left]|].
    destruct (isCharVisible _ _ _); [exists c | exists m]; split; auto.
Qed.

Lemma maskers_substitute_in_place_witness :
  Forall2 (fun c c' => c' = c \/ (isFormattingChar c = false /\ c' = 42%N))
          (js "+1 (555) 123-4567")
          (maskWithFormat (js "+1 (555) 123-4567") (normalizeOptions withFormat)).
Proof.
  apply (maskers_substitute_in_place (js "+1 (555) 123-4567")
           (normalizeOptions withFormat) 42%N); reflexivity.
Defined.

(** ** The two modes side by side *)

Section Modes.

Variable options : NormalizedOptions.t.
Hypothesis Hnocustom : NormalizedOptions.customMask options = None.
Hypothesis Hmask :
  Forall (fun c => isFormattingChar c = false) (NormalizedOptions.maskChar options).

Lemma filter_nonFormatting_fixed (s : jsstring) :
  Forall (fun c => isFormattingChar c = false) s ->
  List.filter (fun c => negb (isFormattingChar c)) s = s.
Proof. induction 1 as [|c s Hc _ IH]; simpl; [done|]. by rewrite Hc, IH. Qed.

Lemma stripFormatting_digits (s : jsstring) :
  Forall (fun c => isDigit c = true \/ (isFormattingChar c = true /\ c <> PLUS)) s ->
  stripFormatting s = digitsOf s.
Proof.
  unfold stripFormatting, digitsOf.
  induction 1 as [|c s Hc _ IH]; simpl; [done|]. rewrite IH.
  destruct Hc as [Hd | [Hf Hp]].
  - by rewrite Hd.
  - apply N.eqb_neq in Hp. by rewrite (formatting_not_digit c Hf), Hp.
Qed.

Lemma join_cons (p : jsstring) (ps : list jsstring) : join (p :: ps) = p ++ join ps.
Proof. reflexivity. Qed.

Lemma digitsOf_cons (c : char) (s : jsstring) :
  digitsOf (c :: s) = if isDigit c then c :: digitsOf s else digitsOf s.
Proof. reflexivity. Qed.

Lemma maskWithFormat_map_digits (phone : jsstring) (totalDigits : Z) :
  forall chars charIndex (seen : nat),
    Forall (fun c => isDigit c = true \/ (isFormattingChar c = true /\ c <> PLUS)) chars ->
    List.filter (fun c => negb (isFormattingChar c))
      (join (maskWithFormat_map phone totalDigits options charIndex
                                (Z.of_nat seen - 1) chars))
    = join (imap (fun k c =>
                    if isCharVisible (Z.of_nat (seen + k)) totalDigits options
                    then [c]
                    else NormalizedOptions.maskChar options)
                 (digitsOf chars)).
Proof.
  induction chars as [|c chars IH]; intros charIndex seen Hok; [done|].
  apply Forall_cons in Hok as [Hc Hok].
  simpl maskWithFormat_map. rewrite Hnocustom, digitsOf_cons.
  destruct Hc as [Hd | [Hf Hp]].
  - rewrite Hd, (kept_not_formatting_or_plus c Hd).
    rewrite imap_cons, !join_cons, List.filter_app.
    replace (Z.of_nat seen - 1 + 1) with (Z.of_nat seen) by lia.
    replace (seen + 0)%nat with seen by lia.
    f_equal.
    + destruct (isCharVisible _ _ _); simpl.
      * by rewrite (kept_not_formatting_or_plus c Hd).
      * by apply filter_nonFormatting_fixed.
    + replace (Z.of_nat seen) with (Z.of_nat (S seen) - 1) by lia.
      rewrite (IH (charIndex + 1) (S seen) Hok).
      f_equal. apply imap_ext. intros k x _. simpl.
      by replace (S (seen + k))%nat with (seen + S k)%nat by lia.
  - rewrite Hf, (formatting_not_digit c Hf).
    rewrite join_cons, List.filter_app. simpl. rewrite Hf. simpl.
    apply (IH (charIndex + 1) seen Hok).
Qed.

End Modes.

(** X15: on a string made of decimal digits and formatting characters
    other than ['+'], the two modes mask the same digits: removing the
    formatting characters from the format-preserving output gives the
    digit-only output (no customMask; maskChar holds no formatting
    character). *)
Theorem maskers_agree_on_digits (phone : jsstring) (options : NormalizedOptions.t) :
  NormalizedOptions.customMask options = None ->
  Forall (fun c => isFormattingChar c = false) (NormalizedOptions.maskChar options) ->
  Forall (fun c => isDigit c = true \/ (isFormattingChar c = true /\ c <> PLUS)) phone ->
  List.filter (fun c => negb (isFormattingChar c)) (maskWithFormat phone options)
  = maskWithoutFormat phone options.
Proof.
  intros Hcm Hm Hok. unfold maskWithFormat.
  change (-1) with (Z.of_nat 0 - 1).
  rewrite (maskWithFormat_map_digits options Hcm Hm) by done.
  unfold maskWithoutFormat, maskWithoutFormat_map.
  rewrite (stripFormatting_digits phone Hok), Hcm. f_equal.
  apply imap_ext. intros k c Hk. simpl.
  assert (Hd : isDigit c = true).
  { apply list_elem_of_lookup_2 in Hk. apply list_elem_of_In in Hk.
    unfold digitsOf in Hk. by apply List.filter_In in Hk as [_ Hd]. }
  by rewrite (digit_not_plus c Hd).
Qed.

Lemma maskers_agree_on_digits_witness :
  List.filter (fun c => negb (isFormattingChar c))
              (maskWithFormat (js "(555) 123-4567") (normalizeOptions withFormat))
  = maskWithoutFormat (js "(555) 123-4567") (normalizeOptions withFormat).
Proof.
  apply (maskers_agree_on_digits (js "(555) 123-4567") (normalizeOptions withFormat));
    [reflexivity | repeat constructor |].
  repeat (apply List.Forall_cons;
          [(left; reflexivity) || (right; split; [reflexivity | discriminate])|]).
  apply List.Forall_nil.
Defined.

(** ** Edge cases of the top-level function *)

(** X16: an empty visibleRanges array is truthy, so it switches the
    bypass off while the predicate still uses the counts.  In digit-only
    mode a short input is then returned stripped of its separators,
    instead of unchanged. *)
Theorem maskPhone_empty_ranges (phone : JsValue) (o : MaskOptions.t) :
  MaskOptions.customMask o = None ->
  MaskOptions.visibleRanges o = Some [] ->
  NormalizedOptions.preserveFormat (normalizeOptions (Some o)) = false ->
  len (stripFormatting (normalizePhone phone))
    <= NormalizedOptions.showFirst (normalizeOptions (Some o))
       + NormalizedOptions.showLast (normalizeOptions (Some o)) ->
  maskPhone phone (Some o) = stripFormatting (normalizePhone phone).
Proof.
  intros Hcm Hvr Hpf Hlen. rewrite maskPhone_resolved. unfold maskPhoneResolved.
  destruct (normalizePhone phone) as [|c s] eqn:Hp; [done|].
  simpl isEmptyString. cbv iota. rewrite Hpf.
  change (NormalizedOptions.visibleRanges (normalizeOptions (Some o)))
    with (MaskOptions.visibleRanges o).
  rewrite Hvr. simpl truthy. rewrite andb_false_r. simpl.
  apply maskWithoutFormat_unmasked; [done | by right | done].
Qed.

Lemma maskPhone_empty_ranges_witness :
  maskPhone (JsString (js "12-3")) (withRanges [] None) = js "123"
  /\ maskPhone (JsString (js "12-3")) None = js "12-3".
Proof.
  split; [|reflexivity].
  apply (maskPhone_empty_ranges (JsString (js "12-3"))
           (MaskOptions.mk None None None None None (Some []) None None));
    [reflexivity | reflexivity | reflexivity | by vm_compute].
Defined.

(** X17: only one level of object is unwrapped.  An ordinary object (one
    that [String] converts in the default way) without a phone property,
    or whose phone property is itself such an object, with or without a
    phone property of its own, normalizes to ["[object Object]"]; the
    string has no digit, so [maskPhone] without options returns it
    unchanged. *)
Theorem maskPhone_object_without_phone (phone : option JsValue) :
  phone = None \/ (exists inner, phone = Some (JsObject inner)) ->
  normalizePhone (JsObject phone) = js "[object Object]"
  /\ maskPhone (JsObject phone) None = js "[object Object]".
Proof.
  intros Hprop.
  assert (Hn : normalizePhone (JsObject phone) = js "[object Object]").
  { by destruct Hprop as [-> | (inner & ->)]. }
  split; [done|].
  by rewrite (maskPhone_normalized _ (JsString (js "[object Object]"))).
Qed.

Lemma maskPhone_object_without_phone_witness :
  maskPhone (JsObject (Some (JsObject (Some (JsString (js "123")))))) None
  = js "[object Object]".
Proof.
  apply (maskPhone_object_without_phone
           (Some (JsObject (Some (JsString (js "123")))))).
  right. by eexists.
Defined.

(** X18: [isValidPhoneInput] accepts exactly strings and numbers, and a
    value it accepts is masked as its string form: it is never taken for
    a missing input and never unwrapped as an object. *)
Theorem isValidPhoneInput_masked_as_string
    (value : JsValue) (options : option MaskOptions.t) :
  isValidPhoneInput value = true ->
  ((exists s, value = JsString s) \/ (exists repr, value = JsNumber repr))
  /\ normalizePhone value = trim (toString value)
  /\ maskPhone value options = maskPhone (JsString (toString value)) options.
Proof.
  intros Hvalid.
  destruct value; try discriminate Hvalid.
  - split; [left; by eexists|]. split; [done|]. done.
  - split; [right; by eexists|]. split; [done|]. by apply maskPhone_normalized.
Qed.

Lemma isValidPhoneInput_masked_as_string_witness :
  maskPhone (JsNumber (js "1234567890")) None
  = maskPhone (JsString (toString (JsNumber (js "1234567890")))) None.
Proof.
  apply (isValidPhoneInput_masked_as_string (JsNumber (js "1234567890")) None).
  reflexivity.
Defined.

(** X19: in digit-only mode with the bypass switched off (a customMask
    or visibleRanges is supplied), [maskPhone] looks at the stripped
    string only: two inputs whose normalized strings strip to the same
    string give the same output, so separators, letters and surrounding
    whitespace never reach the callback or the predicate. *)
Theorem maskPhone_digit_only_sees_stripped
    (phone1 phone2 : JsValue) (o : MaskOptions.t) :
  truthy (MaskOptions.customMask o) || truthy (MaskOptions.visibleRanges o) = true ->
  NormalizedOptions.preserveFormat (normalizeOptions (Some o)) = false ->
  stripFormatting (normalizePhone phone1) = stripFormatting (normalizePhone phone2) ->
  maskPhone phone1 (Some o) = maskPhone phone2 (Some o).
Proof.
  intros Hoff Hpf Hstrip.
  assert (Hall : forall phone,
             maskPhone phone (Some o)
             = maskWithoutFormat (normalizePhone phone) (normalizeOptions (Some o))).
  { intros phone. rewrite maskPhone_resolved. unfold maskPhoneResolved.
    destruct (normalizePhone phone) as [|c s]; [done|].
    simpl isEmptyString. cbv iota. rewrite Hpf.
    change (NormalizedOptions.customMask (normalizeOptions (Some o)))
      with (MaskOptions.customMask o).
    change (NormalizedOptions.visibleRanges (normalizeOptions (Some o)))
      with (MaskOptions.visibleRanges o).
    rewrite <- negb_orb, Hoff. done. }
  rewrite !Hall. unfold maskWithoutFormat. by rewrite Hstrip.
Qed.

Lemma maskPhone_digit_only_sees_stripped_witness :
  maskPhone (JsString (js " +1 (555) 123-4567 ")) (withRanges [(0, 2)] None)
  = maskPhone (JsString (js "+1x555x123x4567")) (withRanges [(0, 2)] None).
Proof.
  apply (maskPhone_digit_only_sees_stripped
           (JsString (js " +1 (555) 123-4567 ")) (JsString (js "+1x555x123x4567"))
           (MaskOptions.mk None None None None None (Some [(0, 2)]) None None));
    reflexivity.
Defined.
